(** * WorkerGLProxy: the owner-side command proxy and the worker-side stubs

    A shallow embedding of the two scripts of the repository:

    - the owner page script, with the class [WorkerGLProxy] (constructor,
      [onMessage], [executeCommand], [executeOneCommand],
      [executeFrameCommands], [dropFrameCommands], [getFrameCommands]);
    - [gl-worker.js], the worker iframe script, with [makeStub] and the
      frame-end signal of its message listener.

    JavaScript objects used as string-keyed tables are finite maps
    ([gmap string]) when only lookups matter, and insertion-ordered
    association lists when the code enumerates them ([Object.values]).
    The methods mutate [this] and may throw; they are written in a small
    state-and-exception monad over the record [World], which holds the proxy's
    fields, the state of the WebGL context and the observable traces
    (operations applied to the context, messages posted to the worker,
    resolved promises). *)

From Stdlib Require Import ZArith String List Lia.
From stdpp Require Import base option list strings gmap pretty.

Open Scope Z_scope.
Open Scope string_scope.
Open Scope list_scope.

(** ** JavaScript values *)

(** Primitive values.  Numbers are restricted to integers: identifiers,
    GLenum targets and counters are all the claims look at. *)
Inductive prim :=
| PUndefined
| PNull
| PBool (b : bool)
| PNum (n : Z)
| PStr (s : string).

(** Values seen by the proxy.  [VWire] is an object that arrived by
    structured clone (or the literal [{fakeClone: true, index: ...}] built by
    [executeOneCommand]); the code reads only its [fakeClone] and [index]
    properties.  [VHost] is an object living in the owner context, such as a
    WebGLBuffer: it is identified by its address, so two [VHost] values are
    the same instance exactly when they are equal. *)
Inductive value :=
| VPrim (p : prim)
| VWire (fakeClone index : value)
| VHost (cls : string) (addr : N)
| VFun (nm : string).

(** What an operation of the WebGL context can return: a primitive, an
    owner-side object or a function, never an object cloned from the wire. *)
Inductive hostval :=
| HPrim (p : prim)
| HObj (cls : string) (addr : N)
| HFun (nm : string).

Coercion VPrim : prim >-> value.
Coercion HPrim : prim >-> hostval.

Definition of_host (h : hostval) : value :=
  match h with
  | HPrim p => VPrim p
  | HObj cls a => VHost cls a
  | HFun nm => VFun nm
  end.

Definition VUndefined : value := VPrim PUndefined.
Definition VTrue : value := VPrim (PBool true).

Inductive jstype :=
| TUndefined | TObject | TBoolean | TNumber | TString | TFunction.

(** [typeof v]; note [typeof null === 'object']. *)
Definition typeof (v : value) : jstype :=
  match v with
  | VPrim PUndefined => TUndefined
  | VPrim PNull => TObject
  | VPrim (PBool _) => TBoolean
  | VPrim (PNum _) => TNumber
  | VPrim (PStr _) => TString
  | VWire _ _ => TObject
  | VHost _ _ => TObject
  | VFun _ => TFunction
  end.

Definition is_object (v : value) : bool :=
  match typeof v with TObject => true | _ => false end.

(** ToBoolean. *)
Definition truthy (v : value) : bool :=
  match v with
  | VPrim PUndefined => false
  | VPrim PNull => false
  | VPrim (PBool b) => b
  | VPrim (PNum n) => negb (Z.eqb n 0)
  | VPrim (PStr s) => negb (String.eqb s "")
  | _ => true
  end.

(** ToString, as used for property keys and for [+] with a string. *)
Definition prim_to_string (p : prim) : string :=
  match p with
  | PUndefined => "undefined"
  | PNull => "null"
  | PBool true => "true"
  | PBool false => "false"
  | PNum n => pretty n
  | PStr s => s
  end.

Definition ToString (v : value) : string :=
  match v with
  | VPrim p => prim_to_string p
  | VWire _ _ => "[object Object]"
  | VHost cls _ => "[object " +:+ cls +:+ "]"
  | VFun nm => "function " +:+ nm +:+ "() { [native code] }"
  end.

(** [a === b].  A cloned wire object is a fresh object, identical to nothing
    the receiver already holds. *)
Definition strict_eq (a b : value) : bool :=
  match a, b with
  | VPrim PUndefined, VPrim PUndefined => true
  | VPrim PNull, VPrim PNull => true
  | VPrim (PBool x), VPrim (PBool y) => Bool.eqb x y
  | VPrim (PNum x), VPrim (PNum y) => Z.eqb x y
  | VPrim (PStr x), VPrim (PStr y) => String.eqb x y
  | VHost c x, VHost d y => String.eqb c d && N.eqb x y
  | VFun x, VFun y => String.eqb x y
  | _, _ => false
  end.

(** Property reads [arg.fakeClone] and [arg.index] on a non-nullish value. *)
Definition get_fakeClone (v : value) : value :=
  match v with VWire fc _ => fc | _ => VUndefined end.

Definition get_index (v : value) : value :=
  match v with VWire _ i => i | _ => VUndefined end.

(** ** Messages *)

(** The fields of a message that the proxy reads.  A field that is absent
    reads as [undefined]; [m_args] is [None] when the message has no [args]
    array. *)
Record Request := {
  m_workerId : value;
  m_id : value;
  m_name : value;
  m_args : option (list value);
  m_wantsResponse : value;
  m_isFrameEnd : value;
}.

(** A message as delivered to [onMessage]: its own fields and, for a batch,
    the array [messages] of individual requests. *)
Record Message := {
  m_request :> Request;
  m_messages : option (list Request);
}.

Definition single (r : Request) : Message :=
  {| m_request := r; m_messages := None |}.

Definition with_args (r : Request) (a : list value) : Request :=
  {| m_workerId := m_workerId r; m_id := m_id r; m_name := m_name r;
     m_args := Some a; m_wantsResponse := m_wantsResponse r;
     m_isFrameEnd := m_isFrameEnd r |}.

(** What the proxy posts to the worker iframe. *)
Inductive Posted :=
| PReply (id result : value)      (* {id, result} *)
| PFrame (time : Z).              (* {name: 'frame', time} *)

(** ** The proxy's fields *)

Record TraceEntry := { te_args : list value; te_res : value }.

Record Proxy := {
  this_workerId : value;
  uncloneables : gmap string hostval;
  cache : gmap string (list TraceEntry);
  commandBuffer : list Message;
  lastUseProgram : option Request;
  lastTargettedBinds : list (string * Request);
  buffering : bool;
  frameEndListener : option nat;
}.

(** [new WorkerGLProxy(worker, gl, workerId)].  [lastUseProgram] is not
    assigned by the constructor and reads as [undefined]. *)
Definition constructor (workerId : value) : Proxy :=
  {| this_workerId := workerId;
     uncloneables := ∅;
     cache := ∅;
     commandBuffer := [];
     lastUseProgram := None;
     lastTargettedBinds := [];
     buffering := false;
     frameEndListener := None |}.

(** Assignments to the fields of [this]. *)

Definition set_uncloneables (x : gmap string hostval) (p : Proxy) : Proxy :=
  {| this_workerId := this_workerId p;
     uncloneables := x;
     cache := cache p;
     commandBuffer := commandBuffer p;
     lastUseProgram := lastUseProgram p;
     lastTargettedBinds := lastTargettedBinds p;
     buffering := buffering p;
     frameEndListener := frameEndListener p |}.

Definition set_cache (x : gmap string (list TraceEntry)) (p : Proxy) : Proxy :=
  {| this_workerId := this_workerId p;
     uncloneables := uncloneables p;
     cache := x;
     commandBuffer := commandBuffer p;
     lastUseProgram := lastUseProgram p;
     lastTargettedBinds := lastTargettedBinds p;
     buffering := buffering p;
     frameEndListener := frameEndListener p |}.

Definition set_commandBuffer (x : list Message) (p : Proxy) : Proxy :=
  {| this_workerId := this_workerId p;
     uncloneables := uncloneables p;
     cache := cache p;
     commandBuffer := x;
     lastUseProgram := lastUseProgram p;
     lastTargettedBinds := lastTargettedBinds p;
     buffering := buffering p;
     frameEndListener := frameEndListener p |}.

Definition set_lastUseProgram (x : option Request) (p : Proxy) : Proxy :=
  {| this_workerId := this_workerId p;
     uncloneables := uncloneables p;
     cache := cache p;
     commandBuffer := commandBuffer p;
     lastUseProgram := x;
     lastTargettedBinds := lastTargettedBinds p;
     buffering := buffering p;
     frameEndListener := frameEndListener p |}.

Definition set_lastTargettedBinds (x : list (string * Request)) (p : Proxy) : Proxy :=
  {| this_workerId := this_workerId p;
     uncloneables := uncloneables p;
     cache := cache p;
     commandBuffer := commandBuffer p;
     lastUseProgram := lastUseProgram p;
     lastTargettedBinds := x;
     buffering := buffering p;
     frameEndListener := frameEndListener p |}.

Definition set_buffering (x : bool) (p : Proxy) : Proxy :=
  {| this_workerId := this_workerId p;
     uncloneables := uncloneables p;
     cache := cache p;
     commandBuffer := commandBuffer p;
     lastUseProgram := lastUseProgram p;
     lastTargettedBinds := lastTargettedBinds p;
     buffering := x;
     frameEndListener := frameEndListener p |}.

Definition set_frameEndListener (x : option nat) (p : Proxy) : Proxy :=
  {| this_workerId := this_workerId p;
     uncloneables := uncloneables p;
     cache := cache p;
     commandBuffer := commandBuffer p;
     lastUseProgram := lastUseProgram p;
     lastTargettedBinds := lastTargettedBinds p;
     buffering := buffering p;
     frameEndListener := x |}.

(** ** Object tables *)

(** [obj[key] = v] on an object whose properties are enumerated later: an
    existing property keeps its position, a new one goes last. *)
Fixpoint obj_set {A} (key : string) (v : A) (o : list (string * A))
    : list (string * A) :=
  match o with
  | [] => [(key, v)]
  | (k, x) :: o' =>
      if String.eqb k key then (k, v) :: o' else (k, x) :: obj_set key v o'
  end.

Fixpoint obj_get {A} (key : string) (o : list (string * A)) : option A :=
  match o with
  | [] => None
  | (k, x) :: o' => if String.eqb k key then Some x else obj_get key o'
  end.

(** [Object.values(o)]. *)
Definition obj_values {A} (o : list (string * A)) : list A := map snd o.

(** The properties every object literal inherits from [Object.prototype];
    all of them are truthy. *)
Definition object_prototype_has (key : string) : bool :=
  bool_decide (key ∈ ["constructor"; "hasOwnProperty"; "isPrototypeOf";
    "propertyIsEnumerable"; "toLocaleString"; "toString"; "valueOf";
    "__defineGetter__"; "__defineSetter__"; "__lookupGetter__";
    "__lookupSetter__"; "__proto__"]).

(** [blacklist[name]] for [const blacklist = {clear: true}]. *)
Definition blacklist (key : string) : bool :=
  String.eqb key "clear" || object_prototype_has key.

(** [targettedBinds[name]] for the literal with the four bind operations. *)
Definition targettedBinds (key : string) : bool :=
  bool_decide (key ∈ ["bindBuffer"; "bindFramebuffer"; "bindRenderbuffer";
    "bindTexture"]) || object_prototype_has key.

(** [this.uncloneables[index]]: a missing entry reads as [undefined].  Only
    the entries the proxy stored are modelled, not the members the table
    inherits from [Object.prototype]. *)
Definition lookup_uncloneable (reg : gmap string hostval) (index : value)
    : value :=
  match reg !! ToString index with
  | Some h => of_host h
  | None => VUndefined
  end.

(** One round of the first loop of [executeOneCommand]. *)
Definition resolveArg (reg : gmap string hostval) (arg : value) : value :=
  if truthy arg && truthy (get_fakeClone arg)
  then lookup_uncloneable reg (get_index arg)
  else arg.

Definition resolveArgs (reg : gmap string hostval) (args : list value)
    : list value :=
  map (resolveArg reg) args.

(** [message.args[0]]. *)
Definition arg0 (args : list value) : value :=
  match args with a :: _ => a | [] => VUndefined end.

(** ** The owner resource and the monad *)

(** [this.gl[name]] is falsy (or missing), truthy without being callable
    (a constant such as [DEPTH_TEST]), or a method. *)
Inductive member := MFalsy | MData | MFunction.

Inductive exn := TypeError | HostError.

Inductive outcome (A : Type) :=
| Ret (a : A)
| Throw (e : exn).
Arguments Ret {A} a.
Arguments Throw {A} e.

(** An operation applied to the context: the request as it was handed to
    [executeOneCommand], the arguments after handle resolution, and what the
    call produced. *)
Record Applied := {
  ap_request : Request;
  ap_args : list value;
  ap_result : outcome hostval;
}.

(** The request object as it is once its arguments are resolved in place. *)
Definition ap_message (a : Applied) : Request :=
  with_args (ap_request a) (ap_args a).

Section WorkerGLProxy.

(** The WebGL context: its state, which members it has, and what applying a
    method to a list of arguments does. *)
Variable glstate : Type.
Variable gl_member : string → member.
Variable gl_apply : string → list value → glstate → outcome hostval * glstate.

Record World := {
  proxy : Proxy;
  gl : glstate;
  applied : list Applied;
  posted : list Posted;
  resolved : list nat;
  promises : nat;
}.

Definition M (A : Type) : Type := World → outcome A * World.

Definition ret {A} (a : A) : M A := fun w => (Ret a, w).

Definition throw {A} (e : exn) : M A := fun w => (Throw e, w).

Definition bind {A B} (m : M A) (k : A → M B) : M B :=
  fun w =>
    match m w with
    | (Ret a, w') => k a w'
    | (Throw e, w') => (Throw e, w')
    end.

Notation "'let*' x := m 'in' k" := (bind m (fun x => k))
  (at level 10, x name, m at level 100, k at level 200, only parsing).
Notation "m ;;; k" := (bind m (fun _ => k))
  (at level 100, k at level 200, right associativity, only parsing).

Definition this : M Proxy := fun w => (Ret (proxy w), w).

Definition update (f : Proxy → Proxy) : M unit :=
  fun w =>
    (Ret tt, {| proxy := f (proxy w); gl := gl w; applied := applied w;
                posted := posted w; resolved := resolved w;
                promises := promises w |}).

Definition when (b : bool) (m : M unit) : M unit :=
  if b then m else ret tt.

(** [for (let x of xs) { body(x) }] *)
Fixpoint forOf {A} (xs : list A) (body : A → M unit) : M unit :=
  match xs with
  | [] => ret tt
  | x :: xs' => body x ;;; forOf xs' body
  end.

(** [this.worker.postMessage(msg, '*')] *)
Definition postMessage (msg : Posted) : M unit :=
  fun w =>
    (Ret tt, {| proxy := proxy w; gl := gl w; applied := applied w;
                posted := posted w ++ [msg]; resolved := resolved w;
                promises := promises w |}).

(** Calling the resolve function of promise [n]. *)
Definition resolve (n : nat) : M unit :=
  fun w =>
    (Ret tt, {| proxy := proxy w; gl := gl w; applied := applied w;
                posted := posted w; resolved := resolved w ++ [n];
                promises := promises w |}).

(** [new Promise(...)]: a fresh promise. *)
Definition newPromise : M nat :=
  fun w =>
    (Ret (promises w),
     {| proxy := proxy w; gl := gl w; applied := applied w;
        posted := posted w; resolved := resolved w;
        promises := S (promises w) |}).

(** [this.gl[name].apply(this.gl, args)]: a TypeError when the member is not
    callable, otherwise the method's outcome.  Either way the attempt is
    recorded in [applied]. *)
Definition gl_call (message : Request) (key : string) (args : list value)
    : M hostval :=
  fun w =>
    let '(r, g) :=
      match gl_member key with
      | MFunction => gl_apply key args (gl w)
      | _ => (Throw TypeError, gl w)
      end in
    (r, {| proxy := proxy w; gl := g;
           applied := applied w ++
             [{| ap_request := message; ap_args := args; ap_result := r |}];
           posted := posted w; resolved := resolved w;
           promises := promises w |}).

Definition member_truthy (m : member) : bool :=
  match m with MFalsy => false | _ => true end.

(** ** The methods of [WorkerGLProxy] *)

Definition executeOneCommand (message : Request) : M value :=
  let* p := this in
  let* args :=
    match m_args message with
    | Some a => ret a
    | None => throw TypeError           (* message.args.length *)
    end in
  let args := resolveArgs (uncloneables p) args in
  let resolved_message := with_args message args in
  let name := ToString (m_name message) in
  if negb (member_truthy (gl_member name)) then ret VUndefined else
  if blacklist name then ret VUndefined else
  when (strict_eq (m_name message) (PStr "useProgram"))
    (update (set_lastUseProgram (Some resolved_message))) ;;;
  when (targettedBinds name)
    (update (fun p => set_lastTargettedBinds
       (obj_set (name +:+ "-" +:+ ToString (arg0 args)) resolved_message
          (lastTargettedBinds p)) p)) ;;;
  let* res := gl_call message name args in
  when (truthy (of_host res) && negb (is_object (of_host res)))
    (update (fun p => set_cache
       (<[name := default [] (cache p !! name) ++
                  [{| te_args := args; te_res := of_host res |}]]> (cache p))
       p)) ;;;
  if is_object (of_host res) then
    update (fun p => set_uncloneables
      (<[ToString (m_id message) := res]> (uncloneables p)) p) ;;;
    ret (VWire VTrue (m_id message))
  else ret (of_host res).

(** [executeCommand] has no [return] statement: its value is [undefined]. *)
Definition executeCommand (message : Message) : M value :=
  match m_messages message with
  | Some bufferedMessages =>
      forOf bufferedMessages
        (fun bufferedMessage => executeOneCommand bufferedMessage ;;; ret tt)
  | None => executeOneCommand message ;;; ret tt
  end ;;;
  ret VUndefined.

(** [this.commandBuffer.push(message)] *)
Definition push (message : Message) : M unit :=
  update (fun p => set_commandBuffer (commandBuffer p ++ [message]) p).

(** [this.frameEndListener()], reached only when the listener is set. *)
Definition call_frameEndListener (p : Proxy) : M unit :=
  match frameEndListener p with
  | Some l => resolve l
  | None => throw TypeError
  end.

Definition onMessage (message : Message) : M unit :=
  let* p := this in
  if negb (strict_eq (m_workerId message) (this_workerId p)) then ret tt else
  if bool_decide (is_Some (frameEndListener p)) && truthy (m_isFrameEnd message)
  then call_frameEndListener p else
  if buffering p then push message else
  let* res := executeCommand message in
  when (truthy (m_wantsResponse message))
    (postMessage (PReply (m_id message) res)).

Definition executeFrameCommands : M unit :=
  update (set_buffering false) ;;;
  let* p := this in
  forOf (commandBuffer p) (fun message => executeCommand message ;;; ret tt) ;;;
  update (set_commandBuffer []).

Definition dropFrameCommands : M unit :=
  update (set_buffering false) ;;;
  update (set_commandBuffer []).

Definition getFrameCommands (now : Z) : M nat :=
  update (set_buffering true) ;;;
  let* p := this in
  match lastUseProgram p with
  | Some m => push (single m)
  | None => ret tt
  end ;;;
  let* p := this in
  forOf (obj_values (lastTargettedBinds p))
    (fun command => push (single command)) ;;;
  postMessage (PFrame now) ;;;
  let* res := newPromise in
  update (set_frameEndListener (Some res)) ;;;
  ret res.

(** ** Vocabulary of the properties *)

Definition is_useProgram (r : Request) : bool :=
  strict_eq (m_name r) (PStr "useProgram").

Definition is_targetted (r : Request) : bool :=
  targettedBinds (ToString (m_name r)).

(** The key under which a targeted bind is remembered. *)
Definition bind_key (r : Request) : string :=
  ToString (m_name r) +:+ "-" +:+ ToString (arg0 (default [] (m_args r))).

(** A request gets as far as the context when the context has a member of
    that name and the name is not suppressed. *)
Definition reaches_gl (r : Request) : bool :=
  member_truthy (gl_member (ToString (m_name r))) &&
  negb (blacklist (ToString (m_name r))).

(** The sticky-state fields after a request with resolved arguments got past
    the two guards. *)
Definition sticky_after (r : Request) (p : Proxy) : Proxy :=
  let p1 := if is_useProgram r then set_lastUseProgram (Some r) p else p in
  if is_targetted r
  then set_lastTargettedBinds
         (obj_set (bind_key r) r (lastTargettedBinds p1)) p1
  else p1.

(** The entry that a call with these arguments and this result adds to the
    result trace of [name]. *)
Definition traced (name : string) (args : list value) (res : value)
    (c : gmap string (list TraceEntry)) : gmap string (list TraceEntry) :=
  <[name := default [] (c !! name) ++ [{| te_args := args; te_res := res |}]]> c.

(** The trace and the registry after the operation returned [res]. *)
Definition result_after (r : Request) (args : list value) (res : hostval)
    (p : Proxy) : Proxy :=
  let p1 :=
    if truthy (of_host res) && negb (is_object (of_host res))
    then set_cache (traced (ToString (m_name r)) args (of_host res) (cache p)) p
    else p in
  if is_object (of_host res)
  then set_uncloneables (<[ToString (m_id r) := res]> (uncloneables p1)) p1
  else p1.

Definition result_value (r : Request) (res : hostval) : value :=
  if is_object (of_host res) then VWire VTrue (m_id r) else of_host res.

(** What [this.gl[name].apply] gives in state [g]. *)
Definition gl_outcome (name : string) (args : list value) (g : glstate)
    : outcome hostval * glstate :=
  match gl_member name with
  | MFunction => gl_apply name args g
  | _ => (Throw TypeError, g)
  end.

(** The individual requests a message stands for. *)
Definition requests_of (m : Message) : list Request :=
  match m_messages m with
  | Some l => l
  | None => [m_request m]
  end.

(** A message that [onMessage] neither drops nor takes for a frame end. *)
Definition accepts (p : Proxy) (m : Message) : bool :=
  strict_eq (m_workerId m) (this_workerId p) &&
  negb (bool_decide (is_Some (frameEndListener p)) && truthy (m_isFrameEnd m)).

(** A request on which [executeOneCommand] cannot throw: it has arguments
    and, if it reaches the context, the member is a method that returns. *)
Definition returns (r : Request) : Prop :=
  is_Some (m_args r) ∧
  (reaches_gl r = true →
   gl_member (ToString (m_name r)) = MFunction ∧
   ∀ args g, ∃ h g', gl_apply (ToString (m_name r)) args g = (Ret h, g')).

(** The requests applied to the context so far, as the objects they are
    after their arguments were resolved. *)
Definition executed (w : World) : list Request := map ap_message (applied w).

(** The requests handed to the context since the log had length [n]. *)
Definition applied_since (n : nat) (w : World) : list Request :=
  drop n (map ap_request (applied w)).

(** The last element of a list that satisfies [P]. *)
Fixpoint last_where {A} (P : A → bool) (l : list A) : option A :=
  match l with
  | [] => None
  | x :: l' =>
      match last_where P l' with
      | Some y => Some y
      | None => if P x then Some x else None
      end
  end.

(** The sticky-state cache holds, in its mode-setter slot and under every
    key of the targeted-bind table, the request executed last for it, and
    no key occurs twice. *)
Definition sticky_inv (w : World) : Prop :=
  lastUseProgram (proxy w) = last_where is_useProgram (executed w) ∧
  NoDup (map fst (lastTargettedBinds (proxy w))) ∧
  ∀ key, obj_get key (lastTargettedBinds (proxy w)) =
         last_where (fun r => is_targetted r && String.eqb (bind_key r) key)
           (executed w).

(** What [getFrameCommands] puts at the head of the queue. *)
Definition seeds (p : Proxy) : list Request :=
  match lastUseProgram p with Some m => [m] | None => [] end ++
  obj_values (lastTargettedBinds p).

(** [m] keeps the property [I] of the world, whether it returns or
    throws. *)
Definition preserves {A} (I : World → Prop) (m : M A) : Prop :=
  ∀ w, I w → I (snd (m w)).

(** What executing commands leaves alone. *)
Definition untouched (w w' : World) : Prop :=
  posted w' = posted w ∧ resolved w' = resolved w ∧
  promises w' = promises w ∧
  this_workerId (proxy w') = this_workerId (proxy w) ∧
  commandBuffer (proxy w') = commandBuffer (proxy w) ∧
  buffering (proxy w') = buffering (proxy w) ∧
  frameEndListener (proxy w') = frameEndListener (proxy w).

(** [m] hands the requests [expected] to the context, in this order, and
    stops early only by throwing. *)
Definition applies {A} (m : M A) (expected : list Request) : Prop :=
  ∀ w, ∃ done,
    map ap_request (applied (snd (m w))) = map ap_request (applied w) ++ done ∧
    done `prefix_of` expected ∧
    (∀ a, fst (m w) = Ret a → done = expected) ∧
    untouched w (snd (m w)).

(** The part of the world the sticky-state invariant talks about. *)
Definition sticky_view (w : World)
    : option Request * list (string * Request) * list Applied :=
  (lastUseProgram (proxy w), lastTargettedBinds (proxy w), applied w).

(** Every logged request got past the two guards. *)
Definition log_wf (w : World) : Prop :=
  Forall (fun a => reaches_gl (ap_request a) = true) (applied w).

(** ** Runs of the proxy *)

(** Another user of the shared context changes its state. *)
Definition alter_gl (f : glstate → glstate) (w : World) : World :=
  {| proxy := proxy w; gl := f (gl w); applied := applied w;
     posted := posted w; resolved := resolved w; promises := promises w |}.

(** What can happen to a proxy: one of its methods is called, or the shared
    context is used by somebody else. *)
Inductive Op :=
| OnMessage (message : Message)
| ExecuteCommand (message : Message)
| ExecuteOneCommand (message : Request)
| ExecuteFrameCommands
| DropFrameCommands
| GetFrameCommands (now : Z)
| External (f : glstate → glstate).

Definition step (w : World) (o : Op) : World :=
  match o with
  | OnMessage m => snd (onMessage m w)
  | ExecuteCommand m => snd (executeCommand m w)
  | ExecuteOneCommand r => snd (executeOneCommand r w)
  | ExecuteFrameCommands => snd (executeFrameCommands w)
  | DropFrameCommands => snd (dropFrameCommands w)
  | GetFrameCommands now => snd (getFrameCommands now w)
  | External f => alter_gl f w
  end.

Definition run (ops : list Op) (w : World) : World := fold_left step ops w.

(** The world right after [new WorkerGLProxy(worker, gl, workerId)]. *)
Definition initial (g : glstate) (workerId : value) : World :=
  {| proxy := constructor workerId; gl := g; applied := []; posted := [];
     resolved := []; promises := 0%nat |}.

(** Messages delivered one after the other. *)
Definition dispatch (ms : list Message) (w : World) : World :=
  fold_left (fun w m => snd (onMessage m w)) ms w.

End WorkerGLProxy.

Arguments proxy {glstate} _.
Arguments gl {glstate} _.
Arguments applied {glstate} _.
Arguments posted {glstate} _.
Arguments resolved {glstate} _.
Arguments promises {glstate} _.
Arguments initial {glstate} _ _.
Arguments alter_gl {glstate} _ _.

(** ** The worker script, gl-worker.js *)

Module GlWorker.

(** [let workerId;] is declared and never assigned. *)
Definition workerId : value := VUndefined.

(** The module variables [id] and [pending]; of [pending] the keys, each
    holding the resolver of the promise its call returned. *)
Record State := { id : Z; pending : gset Z }.

Definition init : State := {| id := 0; pending := ∅ |}.

(** Calling the function [makeStub(functionName)] returns: the message it
    posts to the parent window and the new module state. *)
Definition makeStub (functionName : string) (arguments : list value)
    (s : State) : Message * State :=
  let invokeId := id s in
  ({| m_request :=
        {| m_workerId := workerId;
           m_id := PNum invokeId;
           m_name := PStr functionName;
           m_args := Some arguments;
           m_wantsResponse := VUndefined;
           m_isFrameEnd := VUndefined |};
      m_messages := None |},
   {| id := invokeId + 1; pending := {[invokeId]} ∪ pending s |}).

(** The message posted after [render], [{workerId, isFrameEnd: true}]. *)
Definition frameEnd : Message :=
  {| m_request :=
       {| m_workerId := workerId;
          m_id := VUndefined;
          m_name := VUndefined;
          m_args := None;
          m_wantsResponse := VUndefined;
          m_isFrameEnd := VTrue |};
     m_messages := None |}.

End GlWorker.

(** ** A small context to run the proxy on *)

Module Demo.

Definition functions : list string :=
  ["clear"; "useProgram"; "bindBuffer"; "bindTexture"; "drawArrays";
   "createBuffer"; "createProgram"; "getError"; "getParameter"; "isEnabled";
   "toString"].

Definition gl_member (key : string) : member :=
  if bool_decide (key ∈ functions) then MFunction
  else if String.eqb key "DEPTH_TEST" then MData
  else MFalsy.

(** The state is the address of the next object the context creates. *)
Definition gl_apply (key : string) (args : list value) (next : N)
    : outcome hostval * N :=
  if String.eqb key "createBuffer" then
    (Ret (HObj "WebGLBuffer" next), N.succ next)
  else if String.eqb key "createProgram" then
    (Ret (HObj "WebGLProgram" next), N.succ next)
  else if String.eqb key "getError" then (Ret (HPrim (PNum 0)), next)
  else if String.eqb key "getParameter" then (Ret (HPrim (PNum 34)), next)
  else if String.eqb key "isEnabled" then (Ret (HPrim (PBool false)), next)
  else (Ret (HPrim PUndefined), next).

Definition request (workerId id : Z) (name : string) (args : list value)
    (wantsResponse : bool) : Message :=
  single {| m_workerId := PNum workerId; m_id := PNum id;
            m_name := PStr name; m_args := Some args;
            m_wantsResponse := if wantsResponse then VTrue else VUndefined;
            m_isFrameEnd := VUndefined |}.

Definition start : World N := initial 0%N (PNum 1).

Abbreviation executeOneCommand := (executeOneCommand N gl_member gl_apply).
Abbreviation onMessage := (onMessage N gl_member gl_apply).
Abbreviation executeFrameCommands := (executeFrameCommands N gl_member gl_apply).
Abbreviation dispatch := (dispatch N gl_member gl_apply).
Abbreviation run := (run N gl_member gl_apply).

(** A handle to the result of the request with this id. *)
Definition handle (id : Z) : value := VWire VTrue (PNum id).

Definition m_createBuffer := request 1 0 "createBuffer" [] true.
Definition m_createProgram := request 1 1 "createProgram" [] true.
Definition m_useProgram := request 1 2 "useProgram" [handle 1] false.
Definition m_bindBuffer :=
  request 1 3 "bindBuffer" [VPrim (PNum 34962); handle 0] false.
Definition m_drawArrays :=
  request 1 4 "drawArrays" [VPrim (PNum 4); VPrim (PNum 0); VPrim (PNum 3)]
    false.
Definition m_clear := request 1 5 "clear" [VPrim (PNum 16640)] true.
Definition m_getError := request 1 6 "getError" [] true.
Definition m_getParameter :=
  request 1 7 "getParameter" [VPrim (PNum 3379)] true.

(** A request of another worker, and a second request that reuses id 0. *)
Definition m_foreign := request 2 0 "drawArrays" [] true.
Definition m_createProgram_again := request 1 0 "createProgram" [] true.
Definition m_bindTexture :=
  request 1 8 "bindTexture" [VPrim (PNum 3553); VPrim PNull] false.

(** A proxy that has created a buffer and a program, selected the program
    and bound the buffer. *)
Definition setup : list (Op N) :=
  [OnMessage N m_createBuffer; OnMessage N m_createProgram;
   OnMessage N m_useProgram; OnMessage N m_bindBuffer].

(** The same proxy while it collects a frame. *)
Definition collecting : World N :=
  snd (getFrameCommands N 0 (run setup start)).

(** The frame-end signal as worker 1 would have to send it. *)
Definition m_frameEnd : Message :=
  single {| m_workerId := PNum 1; m_id := VUndefined; m_name := VUndefined;
            m_args := None; m_wantsResponse := VUndefined;
            m_isFrameEnd := VTrue |}.

(** What arrives during the frame: a draw call, a message of another
    worker, a suppressed call, a batch of two requests, the frame end. *)
Definition window : list Message :=
  [m_drawArrays; m_foreign; m_clear;
   {| m_request := m_getError;
      m_messages := Some [m_request m_bindTexture; m_request m_getError] |};
   m_frameEnd].

Definition name_of (r : Request) : string := ToString (m_name r).

End Demo.

(** ** Growth of the proxy's tables and logs *)

Section Growth.

Context {glstate : Type}.

Definition is_ret {A} (o : outcome A) : bool :=
  match o with Ret _ => true | Throw _ => false end.

(** The message [{..., messages: [...]}]: a wrapper and its requests. *)
Definition batch (wrapper : Request) (l : list Request) : Message :=
  {| m_request := wrapper; m_messages := Some l |}.

(** [this.cache[name]], read as the empty array when it was never set. *)
Definition trace_of (name : string) (p : Proxy) : list TraceEntry :=
  default [] (cache p !! name).

(** [w'] has everything [w] had: the same [workerId], every registry key,
    every trace and every log as a prefix, no fewer promises, and a
    frame-end listener if [w] had one. *)
Definition extends_to (w w' : World glstate) : Prop :=
  this_workerId (proxy w') = this_workerId (proxy w) ∧
  dom (uncloneables (proxy w)) ⊆ dom (uncloneables (proxy w')) ∧
  (∀ name, trace_of name (proxy w) `prefix_of` trace_of name (proxy w')) ∧
  applied w `prefix_of` applied w' ∧
  posted w `prefix_of` posted w' ∧
  resolved w `prefix_of` resolved w' ∧
  (promises w ≤ promises w')%nat ∧
  (is_Some (frameEndListener (proxy w)) →
   is_Some (frameEndListener (proxy w'))).

Definition grows {A} (m : M glstate A) : Prop :=
  ∀ w, extends_to w (snd (m w)).

(** Arguments that the first loop of [executeOneCommand] leaves as they
    are, whatever the registry holds. *)
Definition resolved_args (args : list value) : Prop :=
  ∀ reg, resolveArgs reg args = args.

Definition log_resolved (w : World glstate) : Prop :=
  Forall (fun a => resolved_args (ap_args a)) (applied w).

End Growth.

(** ** The message listener of gl-worker.js *)

Module GlWorkerScript.

(** What [gl[name]] holds in the worker: a stub or a constant. *)
Inductive Entry :=
| Stub (functionName : string)
| Constant (v : value).

(** The fields of an incoming message that the listener reads. *)
Record Inbound := {
  in_name : value;
  in_functions : list string;
  in_constants : list (string * value);
  in_id : value;
  in_result : value;
  in_time : value;
}.

(** The module state: the variables [id] and [pending], the object [gl],
    and, as logs, the promises of stub calls that were resolved (the id of
    the call and the value) and the messages posted to the parent window. *)
Record Script := {
  vars : GlWorker.State;
  gl : gmap string Entry;
  settled : list (Z * value);
  sent : list Message;
}.

Definition init : Script :=
  {| vars := GlWorker.init; gl := ∅; settled := []; sent := [] |}.

(** The function returned by [makeStub(functionName)], called: it posts its
    message and returns the promise of call [invokeId]. *)
Definition call_stub (functionName : string) (arguments : list value)
    (s : Script) : Z * Script :=
  let '(message, st) := GlWorker.makeStub functionName arguments (vars s) in
  (GlWorker.id (vars s),
   {| vars := st; gl := gl s; settled := settled s;
      sent := sent s ++ [message] |}).

(** [gl[name](...arguments)] in the code of the worker page: a TypeError
    unless [gl[name]] is a stub. *)
Definition invoke (name : string) (arguments : list value) (s : Script)
    : outcome Z * Script :=
  match gl s !! name with
  | Some (Stub functionName) =>
      let '(promise, s') := call_stub functionName arguments s in
      (Ret promise, s')
  | _ => (Throw TypeError, s)
  end.

(** Page code that makes these calls one after the other. *)
Fixpoint invoke_all (calls : list (string * list value)) (s : Script)
    : outcome unit * Script :=
  match calls with
  | [] => (Ret tt, s)
  | (name, arguments) :: calls' =>
      match invoke name arguments s with
      | (Ret _, s') => invoke_all calls' s'
      | (Throw e, s') => (Throw e, s')
      end
  end.

(** The key of [pending] that [pending.hasOwnProperty(key)] finds: the
    keys are the decimal strings of the ids of the calls. *)
Definition pending_key (st : GlWorker.State) (key : string) : option Z :=
  List.find (fun n => String.eqb (pretty n) key)
    (elements (GlWorker.pending st)).

(** [pending[id](result); delete pending[id]] *)
Definition settle (invokeId : Z) (result : value) (s : Script) : Script :=
  {| vars := {| GlWorker.id := GlWorker.id (vars s);
                GlWorker.pending := GlWorker.pending (vars s) ∖ {[invokeId]} |};
     gl := gl s;
     settled := settled s ++ [(invokeId, result)];
     sent := sent s |}.

Definition set_gl (key : string) (e : Entry) (s : Script) : Script :=
  {| vars := vars s; gl := <[key := e]> (gl s); settled := settled s;
     sent := sent s |}.

Definition post (message : Message) (s : Script) : Script :=
  {| vars := vars s; gl := gl s; settled := settled s;
     sent := sent s ++ [message] |}.

Section Listener.

(** [main] and [render] are code of the worker page: [main] is defined
    there, [render] is the variable declared here that the page assigns.
    Each is given by what it does to the module state and whether it
    throws. *)
Variable main : Script → outcome unit * Script.
Variable render : value → Script → outcome unit * Script.

Definition listener (message : Inbound) (s : Script) : outcome unit * Script :=
  if strict_eq (in_name message) (PStr "bootstrap") then
    let s :=
      fold_left (fun s fnName => set_gl fnName (Stub fnName) s)
        (in_functions message) s in
    let s :=
      fold_left (fun s c => set_gl (fst c) (Constant (snd c)) s)
        (in_constants message) s in
    main s
  else
    let s :=
      match pending_key (vars s) (ToString (in_id message)) with
      | Some invokeId => settle invokeId (in_result message) s
      | None => s
      end in
    if strict_eq (in_name message) (PStr "frame") then
      match render (in_time message) s with
      | (Ret _, s') => (Ret tt, post GlWorker.frameEnd s')
      | (Throw e, s') => (Throw e, s')
      end
    else (Ret tt, s).

End Listener.

(** A message of the proxy as the worker receives it. *)
Definition inbound (msg : Posted) : Inbound :=
  match msg with
  | PReply id result =>
      {| in_name := VUndefined; in_functions := []; in_constants := [];
         in_id := id; in_result := result; in_time := VUndefined |}
  | PFrame time =>
      {| in_name := PStr "frame"; in_functions := []; in_constants := [];
         in_id := VUndefined; in_result := VUndefined; in_time := PNum time |}
  end.

(** [{name: 'bootstrap', functions, constants}], posted by [addWorker]. *)
Definition bootstrap (functions : list string)
    (constants : list (string * value)) : Inbound :=
  {| in_name := PStr "bootstrap"; in_functions := functions;
     in_constants := constants; in_id := VUndefined;
     in_result := VUndefined; in_time := VUndefined |}.

(** The message that the call of a stub with id [invokeId] posts. *)
Definition call_message (invokeId : Z) (call : string * list value)
    : Message :=
  single {| m_workerId := GlWorker.workerId;
            m_id := PNum invokeId;
            m_name := PStr (fst call);
            m_args := Some (snd call);
            m_wantsResponse := VUndefined;
            m_isFrameEnd := VUndefined |}.

(** The messages of consecutive calls, the first with id [base]. *)
Definition messages_from (base : Z) (calls : list (string * list value))
    : list Message :=
  imap (fun k call => call_message (base + Z.of_nat k) call) calls.

(** Every name that is called holds its stub. *)
Definition stubs_for (calls : list (string * list value)) (s : Script)
    : Prop :=
  Forall (fun call => gl s !! fst call = Some (Stub (fst call))) calls.

End GlWorkerScript.

(** ** The discovery loop of the owner page *)

(** The loop of [main] over [for (let key in gl)]: [properties] lists the
    enumerated keys with the values [gl[key]]; functions go to the array
    [functions], numbers to the object [constants]. *)
Definition discover (properties : list (string * value))
    : list string * list (string * value) :=
  fold_left
    (fun acc kv =>
       match typeof (snd kv) with
       | TFunction => (fst acc ++ [fst kv], snd acc)
       | TNumber => (fst acc, obj_set (fst kv) (snd kv) (snd acc))
       | _ => acc
       end)
    properties ([], []).

(** ** The frame cycle of the owner page *)

(** [performance.now() - start] and the other numbers of [renderFrame] are
    integers here, like all numbers. *)

(** ToInt32, the conversion that [|] applies to its operands. *)
Definition to_int32 (n : Z) : Z :=
  let m := n mod 2 ^ 32 in
  if Z.ltb m (2 ^ 31) then m else m - 2 ^ 32.

(** [a | b] on numbers. *)
Definition bit_or (a b : Z) : Z := Z.lor (to_int32 a) (to_int32 b).

(** [window.timings] *)
Record Timings := {
  getCommands : list Z;
  getAllCommands : list Z;
  executeCommands : list Z;
  frames : list Z;
}.

(** An operation applied to the context: by the proxy at index [i] of
    [proxies] for one of its requests, or by the page itself. *)
Inductive PageEvent :=
| ByProxy (i : nat) (a : Applied)
| Direct (name : string) (args : list value) (result : outcome hostval).

(** What an event did, without its result. *)
Inductive View :=
| ViewProxy (i : nat) (r : Request)
| ViewDirect (name : string) (args : list value).

Definition view (e : PageEvent) : View :=
  match e with
  | ByProxy i a => ViewProxy i (ap_request a)
  | Direct name args _ => ViewDirect name args
  end.

Section OwnerPage.

Variable glstate : Type.
Variable gl_member : string → member.
Variable gl_apply : string → list value → glstate → outcome hostval * glstate.

(** The numeric constants of the context that [renderFrame] reads. *)
Variable gl_constant : string → Z.

(** The successive readings of [performance.now()] and of [Date.now()]:
    the [n]-th reading of either clock since the page started. *)
Variable performance_now : nat → Z.
Variable Date_now : nat → Z.

(** The owner page: the array [proxies], the context they share, and as
    logs the operations applied to the context, the messages posted (with
    the index of the proxy whose worker gets them), the promises resolved
    and the calls of [requestAnimationFrame]. *)
Record Page := {
  proxies : list Proxy;
  page_gl : glstate;
  page_log : list PageEvent;
  page_posted : list (nat * Posted);
  page_resolved : list nat;
  page_promises : nat;
  timings : Timings;
  readings : nat;
  animation_frames : nat;
}.

Definition P (A : Type) : Type := Page → outcome A * Page.

Definition pret {A} (a : A) : P A := fun pg => (Ret a, pg).

Definition pbind {A B} (m : P A) (k : A → P B) : P B :=
  fun pg =>
    match m pg with
    | (Ret a, pg') => k a pg'
    | (Throw e, pg') => (Throw e, pg')
    end.

Notation "'let*' x := m 'in' k" := (pbind m (fun x => k))
  (at level 10, x name, m at level 100, k at level 200, only parsing).
Notation "m ;;; k" := (pbind m (fun _ => k))
  (at level 100, k at level 200, right associativity, only parsing).

(** [for (let x of xs) { body(x) }] *)
Fixpoint pforOf {A} (xs : list A) (body : A → P unit) : P unit :=
  match xs with
  | [] => pret tt
  | x :: xs' => body x ;;; pforOf xs' body
  end.

(** [xs.map(f)], as far as the calls of [f] run at once. *)
Fixpoint pmap {A B} (xs : list A) (f : A → P B) : P (list B) :=
  match xs with
  | [] => pret []
  | x :: xs' =>
      let* y := f x in
      let* ys := pmap xs' f in
      pret (y :: ys)
  end.

(** The indices of [proxies]. *)
Definition indices : P (list nat) :=
  fun pg => (Ret (seq 0 (length (proxies pg))), pg).

(** One reading of a clock. *)
Definition read (clock : nat → Z) : P Z :=
  fun pg =>
    (Ret (clock (readings pg)),
     {| proxies := proxies pg; page_gl := page_gl pg;
        page_log := page_log pg; page_posted := page_posted pg;
        page_resolved := page_resolved pg;
        page_promises := page_promises pg; timings := timings pg;
        readings := S (readings pg);
        animation_frames := animation_frames pg |}).

Definition set_timings (f : Timings → Timings) : P unit :=
  fun pg =>
    (Ret tt,
     {| proxies := proxies pg; page_gl := page_gl pg;
        page_log := page_log pg; page_posted := page_posted pg;
        page_resolved := page_resolved pg;
        page_promises := page_promises pg; timings := f (timings pg);
        readings := readings pg;
        animation_frames := animation_frames pg |}).

(** [requestAnimationFrame(renderFrame)] *)
Definition requestAnimationFrame : P unit :=
  fun pg =>
    (Ret tt,
     {| proxies := proxies pg; page_gl := page_gl pg;
        page_log := page_log pg; page_posted := page_posted pg;
        page_resolved := page_resolved pg;
        page_promises := page_promises pg; timings := timings pg;
        readings := readings pg;
        animation_frames := S (animation_frames pg) |}).

(** The world a method of [proxies[i]] runs in: the proxy, the shared
    context and the promises of the page, with empty logs so that what the
    method applies and posts can be told. *)
Definition world_of (p : Proxy) (pg : Page) : World glstate :=
  {| proxy := p; gl := page_gl pg; applied := []; posted := [];
     resolved := page_resolved pg; promises := page_promises pg |}.

(** A method of [proxies[i]], called by the page or by the window. *)
Definition on_proxy {A} (i : nat) (m : M glstate A) : P A :=
  fun pg =>
    match proxies pg !! i with
    | None => (Throw TypeError, pg)
    | Some p =>
        let '(out, w) := m (world_of p pg) in
        (out,
         {| proxies := <[i := proxy w]> (proxies pg);
            page_gl := gl w;
            page_log := page_log pg ++ map (ByProxy i) (applied w);
            page_posted := page_posted pg ++ map (pair i) (posted w);
            page_resolved := resolved w;
            page_promises := promises w;
            timings := timings pg;
            readings := readings pg;
            animation_frames := animation_frames pg |})
    end.

(** [gl.name(args)] in the code of the page. *)
Definition gl_direct (name : string) (args : list value) : P hostval :=
  fun pg =>
    let '(r, g) :=
      match gl_member name with
      | MFunction => gl_apply name args (page_gl pg)
      | _ => (Throw TypeError, page_gl pg)
      end in
    (r,
     {| proxies := proxies pg; page_gl := g;
        page_log := page_log pg ++ [Direct name args r];
        page_posted := page_posted pg; page_resolved := page_resolved pg;
        page_promises := page_promises pg; timings := timings pg;
        readings := readings pg;
        animation_frames := animation_frames pg |}).

(** [renderFrame] is an async function: it runs in segments that end at
    its awaits, each segment to completion.  The first segment goes up to
    the awaits of [proxies.map(async (proxy) => ...)]: it reads the clock and
    calls [getFrameCommands] on every proxy in turn.  It gives [start] and
    the promises awaited. *)
Definition renderFrame_begin : P (Z * list nat) :=
  let* start := read performance_now in
  let* all := indices in
  let* awaited :=
    pmap all (fun i =>
      let* time := read Date_now in
      on_proxy i (getFrameCommands glstate time)) in
  pret (start, awaited).

(** The rest of one callback of [proxies.map], run when the promise of its
    proxy is resolved. *)
Definition renderFrame_got (start : Z) : P unit :=
  let* t := read performance_now in
  set_timings (fun tm =>
    {| getCommands := getCommands tm ++ [t - start];
       getAllCommands := getAllCommands tm;
       executeCommands := executeCommands tm; frames := frames tm |}).

(** The last segment, run when all callbacks are done. *)
Definition renderFrame_finish (start : Z) : P unit :=
  let* t := read performance_now in
  set_timings (fun tm =>
    {| getCommands := getCommands tm;
       getAllCommands := getAllCommands tm ++ [t - start];
       executeCommands := executeCommands tm; frames := frames tm |}) ;;;
  gl_direct "clearColor"
    [VPrim (PNum 0); VPrim (PNum 0); VPrim (PNum 0); VPrim (PNum 1)] ;;;
  gl_direct "clearDepth" [VPrim (PNum 1)] ;;;
  gl_direct "enable" [VPrim (PNum (gl_constant "DEPTH_TEST"))] ;;;
  gl_direct "depthFunc" [VPrim (PNum (gl_constant "LEQUAL"))] ;;;
  gl_direct "clear"
    [VPrim (PNum (bit_or (gl_constant "COLOR_BUFFER_BIT")
                         (gl_constant "DEPTH_BUFFER_BIT")))] ;;;
  let* executeStart := read performance_now in
  let* all := indices in
  pforOf all (fun i =>
    on_proxy i (executeFrameCommands glstate gl_member gl_apply)) ;;;
  let* end_ := read performance_now in
  set_timings (fun tm =>
    {| getCommands := getCommands tm;
       getAllCommands := getAllCommands tm;
       executeCommands := executeCommands tm ++ [end_ - executeStart];
       frames := frames tm ++ [end_ - start] |}) ;;;
  requestAnimationFrame.

(** A message event of the window: the [onMessage] of every proxy, in the
    order the proxies were constructed; a listener that throws does not
    stop the others. *)
Definition deliver (pg : Page) (message : Message) : Page :=
  fold_left
    (fun pg i =>
       snd (on_proxy i (onMessage glstate gl_member gl_apply message) pg))
    (seq 0 (length (proxies pg))) pg.

(** The requests a flush of these proxies hands to the context, the first
    proxy having index [k]. *)
Fixpoint flush_views (k : nat) (ps : list Proxy) : list View :=
  match ps with
  | [] => []
  | p :: ps' =>
      map (ViewProxy k)
        (List.filter (reaches_gl gl_member)
           (flat_map requests_of (commandBuffer p))) ++
      flush_views (S k) ps'
  end.

(** The calls with which [renderFrame] resets the context. *)
Definition reset_views : list View :=
  [ViewDirect "clearColor"
     [VPrim (PNum 0); VPrim (PNum 0); VPrim (PNum 0); VPrim (PNum 1)];
   ViewDirect "clearDepth" [VPrim (PNum 1)];
   ViewDirect "enable" [VPrim (PNum (gl_constant "DEPTH_TEST"))];
   ViewDirect "depthFunc" [VPrim (PNum (gl_constant "LEQUAL"))];
   ViewDirect "clear"
     [VPrim (PNum (bit_or (gl_constant "COLOR_BUFFER_BIT")
                          (gl_constant "DEPTH_BUFFER_BIT")))]].

(** A method of the context that the page calls returns. *)
Definition method_returns (name : string) : Prop :=
  gl_member name = MFunction ∧
  ∀ args g, ∃ h g', gl_apply name args g = (Ret h, g').

(** No request queued in this proxy throws. *)
Definition queue_returns (p : Proxy) : Prop :=
  Forall (returns glstate gl_member gl_apply)
    (flat_map requests_of (commandBuffer p)).

End OwnerPage.

Arguments proxies {glstate} _.
Arguments page_gl {glstate} _.
Arguments page_log {glstate} _.
Arguments page_posted {glstate} _.
Arguments page_resolved {glstate} _.
Arguments page_promises {glstate} _.
Arguments timings {glstate} _.
Arguments readings {glstate} _.
Arguments animation_frames {glstate} _.
Arguments world_of {glstate} _ _.
Arguments on_proxy {glstate A} _ _ _.

(** ** More messages for the demo context *)

Module Scene.

(** A request for an operation the demo context does not have, one for a
    constant of the context, and a bind through a handle nobody stored. *)
Definition m_unknown :=
  Demo.request 1 9 "bindVertexArray" [VPrim (PNum 0)] true.
Definition m_constant := Demo.request 1 10 "DEPTH_TEST" [] true.
Definition m_stale :=
  Demo.request 1 11 "bindBuffer" [VPrim (PNum 34962); Demo.handle 99] true.

(** The demo proxy after its set-up, not collecting. *)
Definition ready : World N := Demo.run Demo.setup Demo.start.

(** The same proxy while it collects, with the call of the constant in its
    queue. *)
Definition stuck : World N := Demo.dispatch [m_constant] Demo.collecting.

(** A proxy constructed without a worker id. *)
Definition anonymous : World N := initial 0%N VUndefined.

(** The context as the discovery loop of the page enumerates it. *)
Definition properties : list (string * value) :=
  [("canvas", VHost "HTMLCanvasElement" 0);
   ("DEPTH_TEST", VPrim (PNum 2929));
   ("clear", VFun "clear");
   ("drawingBufferWidth", VPrim (PNum 640));
   ("drawArrays", VFun "drawArrays")].

(** A worker page whose [main] does nothing, after its bootstrap. *)
Definition idle (s : GlWorkerScript.Script)
    : outcome unit * GlWorkerScript.Script := (Ret tt, s).

Definition booted : GlWorkerScript.Script :=
  snd (GlWorkerScript.listener idle (fun _ => idle)
         (GlWorkerScript.bootstrap (fst (discover properties))
            (snd (discover properties)))
         GlWorkerScript.init).

(** Two calls of stubs, and the worker after it made them. *)
Definition calls : list (string * list value) :=
  [("clear", [VPrim (PNum 16640)]);
   ("drawArrays", [VPrim (PNum 4); VPrim (PNum 0); VPrim (PNum 3)])].

Definition waiting : GlWorkerScript.Script :=
  snd (GlWorkerScript.invoke_all calls booted).

(** The reply to the second call, and a reply to a call nobody made. *)
Definition reply : GlWorkerScript.Inbound :=
  GlWorkerScript.inbound (PReply (PNum 1) (VPrim (PNum 0))).
Definition stray : GlWorkerScript.Inbound :=
  GlWorkerScript.inbound (PReply (PNum 7) VUndefined).

(** The context of the page: the demo context with the methods that
    [renderFrame] calls itself, and its constants. *)
Definition page_member (key : string) : member :=
  if bool_decide
       (key ∈ Demo.functions ++
              ["clearColor"; "clearDepth"; "enable"; "depthFunc"])
  then MFunction
  else if String.eqb key "DEPTH_TEST" then MData
  else MFalsy.

Definition gl_constant (key : string) : Z :=
  if String.eqb key "DEPTH_TEST" then 2929
  else if String.eqb key "LEQUAL" then 515
  else if String.eqb key "COLOR_BUFFER_BIT" then 16384
  else if String.eqb key "DEPTH_BUFFER_BIT" then 256
  else 0.

(** Both clocks advance by 16 with every reading. *)
Definition clock (n : nat) : Z := 16 * Z.of_nat n.

Abbreviation renderFrame_begin := (renderFrame_begin N clock clock).
Abbreviation renderFrame_finish :=
  (renderFrame_finish N page_member Demo.gl_apply gl_constant clock).
Abbreviation deliver := (deliver N page_member Demo.gl_apply).

(** A page with the demo proxy after its set-up and a new proxy for worker
    2. *)
Definition page : Page N :=
  {| proxies := [proxy ready; constructor (PNum 2)];
     page_gl := gl ready; page_log := []; page_posted := [];
     page_resolved := []; page_promises := 0%nat;
     timings := {| getCommands := []; getAllCommands := [];
                   executeCommands := []; frames := [] |};
     readings := 0%nat; animation_frames := 0%nat |}.

(** The page after it asked for a frame, and after the messages of the
    frame arrived. *)
Definition asked : Page N := snd (renderFrame_begin page).
Definition collected : Page N := fold_left deliver Demo.window asked.

End Scene.

(** * Properties *)

Section Properties.

Context {glstate : Type}.
Variable gl_member : string → member.
Variable gl_apply : string → list value → glstate → outcome hostval * glstate.

Abbreviation executeOneCommand := (executeOneCommand glstate gl_member gl_apply).
Abbreviation executeCommand := (executeCommand glstate gl_member gl_apply).
Abbreviation onMessage := (onMessage glstate gl_member gl_apply).
Abbreviation executeFrameCommands :=
  (executeFrameCommands glstate gl_member gl_apply).
Abbreviation dropFrameCommands := (dropFrameCommands glstate).
Abbreviation getFrameCommands := (getFrameCommands glstate).
Abbreviation dispatch := (dispatch glstate gl_member gl_apply).
Abbreviation step := (step glstate gl_member gl_apply).
Abbreviation run := (run glstate gl_member gl_apply).
Abbreviation forOf := (forOf glstate).
Abbreviation bind := (bind glstate).
Abbreviation ret := (ret glstate).
Abbreviation reaches_gl := (reaches_gl gl_member).
Abbreviation gl_outcome := (gl_outcome glstate gl_member gl_apply).
Abbreviation returns := (returns glstate gl_member gl_apply).
Abbreviation sticky_inv := (sticky_inv glstate).
Abbreviation executed := (executed glstate).
Abbreviation applied_since := (applied_since glstate).
Abbreviation preserves := (preserves glstate).
Abbreviation untouched := (untouched glstate).
Abbreviation applies := (applies glstate).
Abbreviation sticky_view := (sticky_view glstate).
Abbreviation log_wf := (log_wf glstate gl_member).
Abbreviation this := (this glstate).
Abbreviation update := (update glstate).
Abbreviation when := (when glstate).
Abbreviation postMessage := (postMessage glstate).
Abbreviation push := (push glstate).

(** ** What one command does *)

Lemma executeOneCommand_no_args (r : Request) (w : World glstate) :
  m_args r = None → executeOneCommand r w = (Throw TypeError, w).
Proof.
  intros H. unfold executeOneCommand, bind, this, throw.
  now rewrite H.
Qed.

Lemma executeOneCommand_skipped (r : Request) (a : list value)
    (w : World glstate) :
  m_args r = Some a → reaches_gl r = false →
  executeOneCommand r w = (Ret VUndefined, w).
Proof.
  intros H Hs.
  unfold executeOneCommand, bind, this, ret.
  rewrite H. unfold reaches_gl in Hs.
  destruct (member_truthy (gl_member (ToString (m_name r)))); simpl in *;
    [| reflexivity].
  destruct (blacklist (ToString (m_name r))); simpl in *;
    [reflexivity | discriminate].
Qed.

Lemma executeOneCommand_applied (r : Request) (a : list value)
    (w : World glstate) :
  m_args r = Some a → reaches_gl r = true →
  let args := resolveArgs (uncloneables (proxy w)) a in
  let r' := with_args r args in
  let '(res, g) := gl_outcome (ToString (m_name r)) args (gl w) in
  let entry := {| ap_request := r; ap_args := args; ap_result := res |} in
  let p := sticky_after r' (proxy w) in
  executeOneCommand r w =
    match res with
    | Throw e =>
        (Throw e,
         {| proxy := p; gl := g; applied := applied w ++ [entry];
            posted := posted w; resolved := resolved w;
            promises := promises w |})
    | Ret h =>
        (Ret (result_value r h),
         {| proxy := result_after r args h p; gl := g;
            applied := applied w ++ [entry];
            posted := posted w; resolved := resolved w;
            promises := promises w |})
    end.
Proof.
  intros H Hr. unfold reaches_gl in Hr.
  apply andb_true_iff in Hr as [Hm Hb]. apply negb_true_iff in Hb.
  cbv zeta. unfold gl_outcome.
  unfold executeOneCommand, bind, this, ret,
    gl_call.
  rewrite H. cbv zeta. rewrite Hm, Hb. simpl negb. cbv iota.
  unfold sticky_after, is_useProgram, is_targetted, bind_key.
  simpl m_name. simpl m_args. simpl default.
  destruct w as [p g ap po re pr]. simpl.
  destruct (strict_eq (m_name r) (PStr "useProgram"));
    destruct (targettedBinds (ToString (m_name r))); simpl;
    (destruct (match gl_member (ToString (m_name r)) with
               | MFunction => _ | _ => _ end) as [[h|e] g'];
     [| reflexivity]);
    unfold result_after, result_value, traced, when,
      update, ret;
    simpl;
    destruct (truthy (of_host h) && negb (is_object (of_host h)));
    destruct (is_object (of_host h)); reflexivity.
Qed.

(** Resolving arguments that are already resolved changes nothing, whatever
    the registry has become: what the registry holds is never a handle.  So
    a request object that is executed again (the remembered binds are, at
    every frame) is left as it is by the first loop of [executeOneCommand],
    and the copies of it that the model keeps agree with the one object the
    script mutates. *)
Lemma resolveArgs_idempotent (reg reg' : gmap string hostval)
    (args : list value) :
  resolveArgs reg' (resolveArgs reg args) = resolveArgs reg args.
Proof.
  unfold resolveArgs. rewrite map_map. apply map_ext. intros arg.
  assert (∀ v, get_fakeClone v = VUndefined → resolveArg reg' v = v) as Hv.
  { intros v Hv. unfold resolveArg. rewrite Hv. simpl.
    now rewrite andb_false_r. }
  destruct (truthy arg && truthy (get_fakeClone arg)) eqn:E.
  - replace (resolveArg reg arg)
      with (lookup_uncloneable reg (get_index arg))
      by (unfold resolveArg; now rewrite E).
    apply Hv. unfold lookup_uncloneable.
    destruct (reg !! ToString (get_index arg)) as [[[]| |]|]; reflexivity.
  - replace (resolveArg reg arg) with arg
      by (unfold resolveArg; now rewrite E).
    unfold resolveArg. now rewrite E.
Qed.

(** ** Sequencing *)

Lemma untouched_refl (w : World glstate) : untouched w w.
Proof. repeat split. Qed.

Lemma untouched_trans (w1 w2 w3 : World glstate) :
  untouched w1 w2 → untouched w2 w3 → untouched w1 w3.
Proof.
  unfold untouched.
  intros (?&?&?&?&?&?&?) (?&?&?&?&?&?&?). repeat split; congruence.
Qed.

Lemma applies_ret {A} (a : A) : applies (ret a) [].
Proof.
  intros w. exists []. simpl. rewrite app_nil_r.
  split; [reflexivity |]. split; [apply prefix_nil |].
  split; [reflexivity | apply untouched_refl].
Qed.

Lemma applies_bind {A B} (m : M glstate A) (k : A → M glstate B)
    (e1 e2 : list Request) :
  applies m e1 → (∀ a, applies (k a) e2) → applies (bind m k) (e1 ++ e2).
Proof.
  intros Hm Hk w. unfold bind.
  destruct (Hm w) as (d1 & Hlog1 & Hpre1 & Hret1 & Hun1).
  destruct (m w) as [[a|e] w1] eqn:E; simpl in *.
  - destruct (Hk a w1) as (d2 & Hlog2 & Hpre2 & Hret2 & Hun2).
    exists (e1 ++ d2). rewrite (Hret1 a eq_refl) in Hlog1.
    split; [| split; [| split]].
    + rewrite Hlog2, Hlog1. now rewrite app_assoc.
    + now apply prefix_app.
    + intros b Hb. f_equal. eauto.
    + eauto using untouched_trans.
  - exists d1. split; [| split; [| split]]; auto.
    + now apply prefix_app_r.
    + intros b Hb. discriminate.
Qed.

Lemma applies_forOf {A} (xs : list A) (body : A → M glstate unit)
    (f : A → list Request) :
  (∀ x, applies (body x) (f x)) → applies (forOf xs body) (flat_map f xs).
Proof.
  intros Hbody. induction xs as [|x xs IH]; simpl.
  - apply applies_ret.
  - apply applies_bind; auto.
Qed.

Lemma applies_executeOneCommand (r : Request) :
  applies (executeOneCommand r) (if reaches_gl r then [r] else []).
Proof.
  intros w. destruct (m_args r) as [a|] eqn:Ha.
  - destruct (reaches_gl r) eqn:Hr.
    + pose proof (executeOneCommand_applied r a w Ha Hr) as H.
      cbv zeta in H.
      destruct (gl_outcome _ _ _) as [[h|e] g]; rewrite H; simpl;
        exists [r]; rewrite map_app; simpl;
        (repeat split; auto);
        unfold sticky_after, result_after;
        repeat match goal with |- context [if ?b then _ else _] =>
                 destruct b end; reflexivity.
    + rewrite (executeOneCommand_skipped r a w Ha Hr). simpl.
      exists []. rewrite app_nil_r. repeat split; auto.
  - rewrite (executeOneCommand_no_args r w Ha). simpl.
    exists []. rewrite app_nil_r. repeat split; auto.
    + apply prefix_nil.
    + intros a H. discriminate.
Qed.

Lemma applies_then_ret {A B} (m : M glstate A) (b : B) (e : list Request) :
  applies m e → applies (bind m (fun _ => ret b)) e.
Proof.
  intros H. rewrite <- (app_nil_r e).
  apply applies_bind; [assumption | intros _; apply applies_ret].
Qed.

Lemma flat_map_guard {A} (P : A → bool) (l : list A) :
  flat_map (fun x => if P x then [x] else []) l = List.filter P l.
Proof.
  induction l as [|x l IH]; simpl; [reflexivity |].
  rewrite IH. now destruct (P x).
Qed.

Lemma filter_flat_map {A B} (P : B → bool) (f : A → list B) (l : list A) :
  flat_map (fun x => List.filter P (f x)) l = List.filter P (flat_map f l).
Proof.
  induction l as [|x l IH]; simpl; [reflexivity |].
  now rewrite List.filter_app, IH.
Qed.

Lemma applies_executeCommand (m : Message) :
  applies (executeCommand m) (List.filter reaches_gl (requests_of m)).
Proof.
  unfold executeCommand, requests_of. apply applies_then_ret.
  destruct (m_messages m) as [l|].
  - rewrite <- flat_map_guard. apply applies_forOf.
    intros r. apply applies_then_ret, applies_executeOneCommand.
  - simpl. apply applies_then_ret, applies_executeOneCommand.
Qed.

(** ** Termination without exceptions *)

Lemma executeOneCommand_returns (r : Request) (w : World glstate) :
  returns r → ∃ v, fst (executeOneCommand r w) = Ret v.
Proof.
  intros [[a Ha] Hcall]. destruct (reaches_gl r) eqn:Hr.
  - destruct (Hcall eq_refl) as [Hm Hret].
    pose proof (executeOneCommand_applied r a w Ha Hr) as H. cbv zeta in H.
    unfold gl_outcome in H. rewrite Hm in H.
    destruct (Hret (resolveArgs (uncloneables (proxy w)) a) (gl w))
      as (h & g' & Hap).
    rewrite Hap in H. rewrite H. eauto.
  - rewrite (executeOneCommand_skipped r a w Ha Hr). eauto.
Qed.

Lemma forOf_returns {A} (xs : list A) (body : A → M glstate unit) :
  (∀ x, In x xs → ∀ w, fst (body x w) = Ret tt) →
  ∀ w, fst (forOf xs body w) = Ret tt.
Proof.
  induction xs as [|x xs IH]; intros Hbody w; simpl; [reflexivity |].
  unfold bind.
  pose proof (Hbody x (or_introl eq_refl) w) as Hx.
  destruct (body x w) as [[[]|e] w1]; simpl in Hx; [| discriminate].
  apply IH. intros y Hy. apply Hbody. now right.
Qed.

Lemma then_ret_returns {A B} (m : M glstate A) (b : B) (w : World glstate) :
  (∃ v, fst (m w) = Ret v) → fst (bind m (fun _ => ret b) w) = Ret b.
Proof.
  intros [v Hv]. unfold bind.
  destruct (m w) as [[a|e] w1]; simpl in *; [reflexivity | discriminate].
Qed.

Lemma executeCommand_returns (m : Message) (w : World glstate) :
  Forall returns (requests_of m) → fst (executeCommand m w) = Ret VUndefined.
Proof.
  intros H. unfold executeCommand. apply then_ret_returns.
  exists tt. unfold requests_of in H. destruct (m_messages m) as [l|].
  - apply forOf_returns. intros r Hr w'. apply then_ret_returns.
    apply executeOneCommand_returns.
    rewrite Forall_forall in H. apply H. now apply list_elem_of_In.
  - apply then_ret_returns, executeOneCommand_returns.
    now inversion H.
Qed.

(** ** Flushing and dispatching *)

Lemma executeFrameCommands_spec (w : World glstate) :
  let queue :=
    List.filter reaches_gl (flat_map requests_of (commandBuffer (proxy w))) in
  let w' := snd (executeFrameCommands w) in
  ∃ done,
    map ap_request (applied w') = map ap_request (applied w) ++ done ∧
    done `prefix_of` queue ∧
    (fst (executeFrameCommands w) = Ret tt →
     done = queue ∧ commandBuffer (proxy w') = []) ∧
    buffering (proxy w') = false ∧ posted w' = posted w.
Proof.
  cbv zeta. unfold executeFrameCommands, bind, update,
    this. simpl.
  match goal with |- context [forOf ?xs ?body ?w0] =>
    destruct (applies_forOf xs body
                (fun m => List.filter reaches_gl (requests_of m))
                (fun m => applies_then_ret _ tt _ (applies_executeCommand m))
                w0) as (done & Hlog & Hpre & Hret & Hun);
    destruct (forOf xs body w0) as [[[]|e] w1]
  end; rewrite filter_flat_map in *; simpl in *;
    destruct Hun as (Hpo & _ & _ & _ & _ & Hbuf & _); simpl in *;
    exists done.
  - rewrite (Hret tt eq_refl) in *.
    split; [assumption |]. split; [reflexivity |]. auto.
  - split; [assumption |]. split; [assumption |].
    split; [intros H; discriminate | auto].
Qed.

Lemma executeFrameCommands_returns (w : World glstate) :
  Forall returns (flat_map requests_of (commandBuffer (proxy w))) →
  fst (executeFrameCommands w) = Ret tt.
Proof.
  intros H.
  unfold executeFrameCommands, bind, update,
    this. simpl.
  match goal with |- context [forOf ?xs ?body ?w0] =>
    assert (fst (forOf xs body w0) = Ret tt) as Hf;
    [| destruct (forOf xs body w0) as [[[]|e] w1];
       simpl in *; [reflexivity | discriminate]]
  end.
  apply forOf_returns. intros m Hm w'. apply then_ret_returns.
  exists VUndefined. apply executeCommand_returns.
  rewrite Forall_forall in *. intros r Hr. apply H.
  apply list_elem_of_In, in_flat_map. exists m. split; [assumption |].
  now apply list_elem_of_In.
Qed.

Lemma onMessage_foreign (m : Message) (w : World glstate) :
  strict_eq (m_workerId m) (this_workerId (proxy w)) = false →
  onMessage m w = (Ret tt, w).
Proof.
  intros H. unfold onMessage, bind, this. simpl.
  now rewrite H.
Qed.

Lemma onMessage_frameEnd (m : Message) (w : World glstate) (l : nat) :
  strict_eq (m_workerId m) (this_workerId (proxy w)) = true →
  frameEndListener (proxy w) = Some l → truthy (m_isFrameEnd m) = true →
  onMessage m w = resolve glstate l w.
Proof.
  intros H Hl Hf. unfold onMessage, bind, this. simpl.
  rewrite H, Hf. unfold call_frameEndListener. rewrite Hl. reflexivity.
Qed.

Lemma accepts_true (p : Proxy) (m : Message) :
  accepts p m = true →
  strict_eq (m_workerId m) (this_workerId p) = true ∧
  bool_decide (is_Some (frameEndListener p)) && truthy (m_isFrameEnd m)
    = false.
Proof.
  unfold accepts. intros H. apply andb_true_iff in H as [H1 H2].
  now apply negb_true_iff in H2.
Qed.

Lemma onMessage_buffers (m : Message) (w : World glstate) :
  accepts (proxy w) m = true → buffering (proxy w) = true →
  onMessage m w = push m w.
Proof.
  intros Ha Hb. apply accepts_true in Ha as [H1 H2].
  unfold onMessage, bind, this. simpl.
  now rewrite H1, H2, Hb.
Qed.

Lemma onMessage_executes (m : Message) (w : World glstate) :
  accepts (proxy w) m = true → buffering (proxy w) = false →
  onMessage m w =
    bind (executeCommand m)
      (fun res => when (truthy (m_wantsResponse m))
                    (postMessage (PReply (m_id m) res))) w.
Proof.
  intros Ha Hb. apply accepts_true in Ha as [H1 H2].
  unfold onMessage. unfold bind at 1. unfold this.
  simpl. now rewrite H1, H2, Hb.
Qed.

Lemma set_commandBuffer_same (p : Proxy) :
  set_commandBuffer (commandBuffer p) p = p.
Proof. now destruct p. Qed.

Lemma dispatch_buffering (ms : list Message) (w : World glstate) :
  buffering (proxy w) = true →
  proxy (dispatch ms w) =
    set_commandBuffer
      (commandBuffer (proxy w) ++ List.filter (accepts (proxy w)) ms)
      (proxy w) ∧
  gl (dispatch ms w) = gl w ∧ applied (dispatch ms w) = applied w ∧
  posted (dispatch ms w) = posted w.
Proof.
  revert w. induction ms as [|m ms IH]; intros w Hb; simpl.
  - rewrite app_nil_r, set_commandBuffer_same. auto.
  - destruct (accepts (proxy w) m) eqn:Ha.
    + rewrite (onMessage_buffers m w Ha Hb).
      destruct (IH (snd (push m w)) Hb) as (Hp & Hg & Hap & Hpo).
      unfold dispatch in *. rewrite Hp, Hg, Hap, Hpo. simpl.
      rewrite <- app_assoc. auto.
    + assert (proxy (snd (onMessage m w)) = proxy w ∧
              gl (snd (onMessage m w)) = gl w ∧
              applied (snd (onMessage m w)) = applied w ∧
              posted (snd (onMessage m w)) = posted w) as (Hp & Hg & Hap & Hpo).
      { unfold accepts in Ha.
        destruct (strict_eq (m_workerId m) (this_workerId (proxy w))) eqn:Hs.
        - simpl in Ha. apply negb_false_iff, andb_true_iff in Ha as [Hl Hf].
          apply bool_decide_eq_true in Hl as [l Hl].
          rewrite (onMessage_frameEnd m w l Hs Hl Hf). simpl. auto.
        - rewrite (onMessage_foreign m w Hs). auto. }
      destruct (IH (snd (onMessage m w))) as (Hp' & Hg' & Hap' & Hpo').
      { now rewrite Hp. }
      unfold dispatch in *.
      rewrite Hp', Hg', Hap', Hpo', Hp, Hg, Hap, Hpo. auto.
Qed.

(** ** Invariants of runs *)

Lemma preserves_ret {A} (I : World glstate → Prop) (a : A) :
  preserves I (ret a).
Proof. now intros w H. Qed.

Lemma preserves_throw {A} (I : World glstate → Prop) (e : exn) :
  preserves I (throw glstate (A := A) e).
Proof. now intros w H. Qed.

Lemma preserves_this (I : World glstate → Prop) : preserves I this.
Proof. now intros w H. Qed.

Lemma preserves_bind {A B} (I : World glstate → Prop) (m : M glstate A)
    (k : A → M glstate B) :
  preserves I m → (∀ a, preserves I (k a)) → preserves I (bind m k).
Proof.
  intros Hm Hk w H. unfold bind. specialize (Hm w H).
  destruct (m w) as [[a|e] w1]; simpl in *; [now apply Hk | assumption].
Qed.

Lemma preserves_when (I : World glstate → Prop) (b : bool)
    (m : M glstate unit) :
  preserves I m → preserves I (when b m).
Proof. intros Hm. destruct b; [assumption | apply preserves_ret]. Qed.

Lemma preserves_forOf {A} (I : World glstate → Prop) (xs : list A)
    (body : A → M glstate unit) :
  (∀ x, preserves I (body x)) → preserves I (forOf xs body).
Proof.
  intros Hbody. induction xs as [|x xs IH]; simpl.
  - apply preserves_ret.
  - apply preserves_bind; auto.
Qed.

Section Invariant.

(** A property of the world that looks only at the sticky-state fields and
    at the log, and that [executeOneCommand] keeps. *)
Variable I : World glstate → Prop.
Hypothesis I_view : ∀ w w', sticky_view w' = sticky_view w → I w → I w'.
Hypothesis I_executeOneCommand : ∀ r, preserves I (executeOneCommand r).

Lemma preserves_update (f : Proxy → Proxy) :
  (∀ p, lastUseProgram (f p) = lastUseProgram p) →
  (∀ p, lastTargettedBinds (f p) = lastTargettedBinds p) →
  preserves I (update f).
Proof.
  intros H1 H2 w. apply I_view. unfold sticky_view. simpl.
  now rewrite H1, H2.
Qed.

Lemma preserves_push (m : Message) : preserves I (push m).
Proof. apply preserves_update; reflexivity. Qed.

Lemma preserves_postMessage (msg : Posted) : preserves I (postMessage msg).
Proof. intros w. now apply I_view. Qed.

Lemma preserves_resolve (n : nat) : preserves I (resolve glstate n).
Proof. intros w. now apply I_view. Qed.

Lemma preserves_newPromise : preserves I (newPromise glstate).
Proof. intros w. now apply I_view. Qed.

Ltac preserve :=
  repeat first
    [ apply I_executeOneCommand
    | apply preserves_push | apply preserves_postMessage
    | apply preserves_resolve | apply preserves_newPromise
    | apply preserves_update; reflexivity
    | apply preserves_ret | apply preserves_throw | apply preserves_this
    | apply preserves_when | apply preserves_forOf | apply preserves_bind
    | match goal with |- ∀ _, _ => intro end ].

Lemma preserves_executeCommand (m : Message) :
  preserves I (executeCommand m).
Proof.
  unfold executeCommand. destruct (m_messages m); preserve.
Qed.

Lemma preserves_onMessage (m : Message) : preserves I (onMessage m).
Proof.
  unfold onMessage. apply preserves_bind; [apply preserves_this |].
  intros p.
  destruct (negb _); [apply preserves_ret |].
  destruct (_ && _).
  - unfold call_frameEndListener. destruct (frameEndListener p); preserve.
  - destruct (buffering p); [apply preserves_push |].
    apply preserves_bind; [apply preserves_executeCommand |]. preserve.
Qed.

Lemma preserves_executeFrameCommands : preserves I executeFrameCommands.
Proof.
  unfold executeFrameCommands.
  apply preserves_bind; [apply preserves_update; reflexivity |]. intros _.
  apply preserves_bind; [apply preserves_this |]. intros p.
  apply preserves_bind; [| intros _; apply preserves_update; reflexivity].
  apply preserves_forOf. intros m.
  apply preserves_bind; [apply preserves_executeCommand |]. preserve.
Qed.

Lemma preserves_dropFrameCommands : preserves I dropFrameCommands.
Proof. unfold dropFrameCommands. preserve. Qed.

Lemma preserves_getFrameCommands (now : Z) :
  preserves I (getFrameCommands now).
Proof.
  unfold getFrameCommands.
  apply preserves_bind; [apply preserves_update; reflexivity |]. intros _.
  apply preserves_bind; [apply preserves_this |]. intros p.
  apply preserves_bind; [destruct (lastUseProgram p); preserve |]. intros _.
  preserve.
Qed.

Lemma step_preserves (o : Op glstate) (w : World glstate) :
  I w → I (step w o).
Proof.
  destruct o; simpl.
  - apply preserves_onMessage.
  - apply preserves_executeCommand.
  - apply I_executeOneCommand.
  - apply preserves_executeFrameCommands.
  - apply preserves_dropFrameCommands.
  - apply preserves_getFrameCommands.
  - now apply I_view.
Qed.

Lemma run_preserves (ops : list (Op glstate)) (w : World glstate) :
  I w → I (run ops w).
Proof.
  revert w. induction ops as [|o ops IH]; intros w H; simpl; [assumption |].
  apply IH, step_preserves, H.
Qed.

End Invariant.

(** ** The sticky-state cache *)

Lemma last_where_snoc {A} (P : A → bool) (l : list A) (x : A) :
  last_where P (l ++ [x]) = if P x then Some x else last_where P l.
Proof.
  induction l as [|y l IH]; simpl.
  - reflexivity.
  - rewrite IH. now destruct (P x).
Qed.

Lemma last_where_In {A} (P : A → bool) (l : list A) (x : A) :
  last_where P l = Some x → In x l ∧ P x = true.
Proof.
  induction l as [|y l IH]; simpl; [discriminate |].
  destruct (last_where P l) as [z|].
  - intros [= <-]. destruct (IH eq_refl). auto.
  - destruct (P y) eqn:Hy; [| discriminate]. intros [= <-]. auto.
Qed.

Lemma obj_get_obj_set {A} (key key' : string) (v : A)
    (o : list (string * A)) :
  obj_get key (obj_set key' v o) =
    if String.eqb key' key then Some v else obj_get key o.
Proof.
  induction o as [|[k x] o IH]; simpl.
  - reflexivity.
  - destruct (String.eqb k key') eqn:E; simpl.
    + apply String.eqb_eq in E as ->.
      now destruct (String.eqb key' key).
    + rewrite IH. destruct (String.eqb k key) eqn:E'; [| reflexivity].
      apply String.eqb_eq in E' as ->. now rewrite String.eqb_sym, E.
Qed.

Lemma obj_set_keys {A} (key : string) (v : A) (o : list (string * A))
    (k : string) :
  In k (map fst (obj_set key v o)) → k = key ∨ In k (map fst o).
Proof.
  induction o as [|[k' x] o IH]; simpl.
  - intros [<-|[]]. now left.
  - destruct (String.eqb k' key); simpl; intros [<-|H]; auto.
    destruct (IH H); auto.
Qed.

Lemma obj_set_NoDup {A} (key : string) (v : A) (o : list (string * A)) :
  NoDup (map fst o) → NoDup (map fst (obj_set key v o)).
Proof.
  induction o as [|[k x] o IH]; simpl; intros H.
  - apply NoDup_singleton.
  - apply NoDup_cons in H as [Hk Ho].
    destruct (String.eqb k key) eqn:E; simpl.
    + now apply NoDup_cons.
    + apply NoDup_cons. split; [| auto].
      rewrite list_elem_of_In. intros Hin.
      apply obj_set_keys in Hin as [->|Hin].
      * now rewrite String.eqb_refl in E.
      * apply Hk. now apply list_elem_of_In.
Qed.

Lemma sticky_inv_after (w w' : World glstate) (r : Request) :
  executed w' = executed w ++ [r] →
  lastUseProgram (proxy w') = lastUseProgram (sticky_after r (proxy w)) →
  lastTargettedBinds (proxy w') =
    lastTargettedBinds (sticky_after r (proxy w)) →
  sticky_inv w → sticky_inv w'.
Proof.
  intros He Hu Hb (Iu & Ind & Ib). unfold sticky_inv.
  rewrite He, Hu, Hb. unfold sticky_after.
  split; [| split].
  - rewrite last_where_snoc.
    destruct (is_useProgram r); destruct (is_targetted r); simpl; auto.
  - destruct (is_useProgram r); destruct (is_targetted r); simpl; auto;
      now apply obj_set_NoDup.
  - intros key. rewrite last_where_snoc.
    destruct (is_useProgram r); destruct (is_targetted r); simpl; auto;
      now rewrite obj_get_obj_set, Ib.
Qed.

Lemma result_after_sticky (r : Request) (args : list value) (h : hostval)
    (p : Proxy) :
  lastUseProgram (result_after r args h p) = lastUseProgram p ∧
  lastTargettedBinds (result_after r args h p) = lastTargettedBinds p.
Proof.
  unfold result_after.
  destruct (truthy (of_host h) && negb (is_object (of_host h)));
    destruct (is_object (of_host h)); auto.
Qed.

Lemma executeOneCommand_sticky_inv (r : Request) :
  preserves sticky_inv (executeOneCommand r).
Proof.
  intros w Hw. destruct (m_args r) as [a|] eqn:Ha.
  - destruct (reaches_gl r) eqn:Hr.
    + pose proof (executeOneCommand_applied r a w Ha Hr) as H.
      cbv zeta in H.
      destruct (gl_outcome _ _ _) as [[h|e] g]; rewrite H; simpl;
        (eapply sticky_inv_after; [| | | exact Hw]); simpl;
        try apply result_after_sticky; try reflexivity;
        unfold executed; simpl; now rewrite map_app.
    + now rewrite (executeOneCommand_skipped r a w Ha Hr).
  - now rewrite (executeOneCommand_no_args r w Ha).
Qed.

Lemma sticky_inv_view (w w' : World glstate) :
  sticky_view w' = sticky_view w → sticky_inv w → sticky_inv w'.
Proof.
  unfold sticky_view, sticky_inv, executed. intros [= -> -> ->]. auto.
Qed.

Lemma executeOneCommand_log_wf (r : Request) :
  preserves log_wf (executeOneCommand r).
Proof.
  intros w Hw. destruct (m_args r) as [a|] eqn:Ha.
  - destruct (reaches_gl r) eqn:Hr.
    + pose proof (executeOneCommand_applied r a w Ha Hr) as H.
      cbv zeta in H. unfold log_wf in *.
      destruct (gl_outcome _ _ _) as [[h|e] g]; rewrite H; simpl;
        apply Forall_app; split; auto.
    + now rewrite (executeOneCommand_skipped r a w Ha Hr).
  - now rewrite (executeOneCommand_no_args r w Ha).
Qed.

Lemma log_wf_view (w w' : World glstate) :
  sticky_view w' = sticky_view w → log_wf w → log_wf w'.
Proof. unfold sticky_view, log_wf. intros [= _ _ ->]. auto. Qed.

Lemma sticky_inv_initial (g : glstate) (workerId : value) :
  sticky_inv (initial g workerId).
Proof.
  unfold sticky_inv. simpl. split; [reflexivity |].
  split; [apply NoDup_nil_2 | reflexivity].
Qed.

Lemma run_sticky_inv (ops : list (Op glstate)) (w : World glstate) :
  sticky_inv w → sticky_inv (run ops w).
Proof.
  apply (run_preserves sticky_inv sticky_inv_view
           executeOneCommand_sticky_inv).
Qed.

Lemma run_log_wf (ops : list (Op glstate)) (w : World glstate) :
  log_wf w → log_wf (run ops w).
Proof.
  apply (run_preserves log_wf log_wf_view executeOneCommand_log_wf).
Qed.

(** C8: after any sequence of operations on a freshly constructed proxy
    (method calls, and other users of the shared context in between), the
    mode-setter slot holds the most recently executed useProgram request,
    the targeted-bind table has no key twice, and under every key it holds
    the most recently executed targeted bind with that key. *)
Theorem sticky_cache_holds_last_executed (g : glstate) (workerId : value)
    (ops : list (Op glstate)) :
  sticky_inv (run ops (initial g workerId)).
Proof. apply run_sticky_inv, sticky_inv_initial. Qed.

(** ** Frames *)

Lemma since_app (l : list Applied) (w' : World glstate)
    (done : list Request) :
  map ap_request (applied w') = map ap_request l ++ done →
  applied_since (length l) w' = done.
Proof.
  unfold applied_since. intros ->.
  rewrite <- (length_map ap_request l). apply drop_app_length.
Qed.

Lemma forOf_push (xs : list Request) (w : World glstate) :
  forOf xs (fun command => push (single command)) w =
    (Ret tt,
     {| proxy := set_commandBuffer
                   (commandBuffer (proxy w) ++ map single xs) (proxy w);
        gl := gl w; applied := applied w; posted := posted w;
        resolved := resolved w; promises := promises w |}).
Proof.
  revert w. induction xs as [|x xs IH]; intros w; simpl.
  - rewrite app_nil_r, set_commandBuffer_same. now destruct w.
  - unfold bind. simpl. rewrite IH. simpl. now rewrite <- app_assoc.
Qed.

Lemma getFrameCommands_spec (now : Z) (w : World glstate) :
  getFrameCommands now w =
    (Ret (promises w),
     {| proxy :=
          set_frameEndListener (Some (promises w))
            (set_commandBuffer
               (commandBuffer (proxy w) ++ map single (seeds (proxy w)))
               (set_buffering true (proxy w)));
        gl := gl w; applied := applied w;
        posted := posted w ++ [PFrame now];
        resolved := resolved w; promises := S (promises w) |}).
Proof.
  unfold getFrameCommands, seeds.
  unfold bind at 1. simpl. unfold bind at 1. simpl.
  unfold bind at 1.
  destruct (lastUseProgram (proxy w)) as [m|] eqn:Hm; simpl;
    unfold bind at 1; simpl; unfold bind at 1; rewrite forOf_push;
    unfold bind, postMessage, newPromise, update, ret; simpl;
    rewrite <- ?app_assoc; reflexivity.
Qed.

Lemma flat_map_single (l : list Request) :
  flat_map requests_of (map single l) = l.
Proof. induction l as [|r l IH]; simpl; [reflexivity | now rewrite IH]. Qed.

Lemma filter_all {A} (P : A → bool) (l : list A) :
  (∀ x, In x l → P x = true) → List.filter P l = l.
Proof.
  induction l as [|x l IH]; simpl; intros H; [reflexivity |].
  rewrite (H x) by auto. rewrite IH; auto.
Qed.

Lemma obj_get_NoDup {A} (o : list (string * A)) (k : string) (x : A) :
  NoDup (map fst o) → In (k, x) o → obj_get k o = Some x.
Proof.
  induction o as [|[k' y] o IH]; simpl; intros Hnd; [intros [] |].
  apply NoDup_cons in Hnd as [Hk Ho].
  intros [[= -> ->]|Hin].
  - now rewrite String.eqb_refl.
  - destruct (String.eqb k' k) eqn:E; [| auto].
    apply String.eqb_eq in E as ->. exfalso. apply Hk.
    apply list_elem_of_In, in_map_iff. now exists (k, x).
Qed.

Lemma seeds_executed (w : World glstate) (r : Request) :
  sticky_inv w → In r (seeds (proxy w)) → In r (executed w).
Proof.
  intros (Hu & Hnd & Hb). unfold seeds. rewrite in_app_iff.
  intros [Hr|Hr].
  - destruct (lastUseProgram (proxy w)) as [m|]; [| destruct Hr].
    destruct Hr as [<-|[]]. symmetry in Hu.
    now apply last_where_In in Hu.
  - unfold obj_values in Hr. apply in_map_iff in Hr as ([k x] & <- & Hin).
    pose proof (obj_get_NoDup _ k x Hnd Hin) as Hg.
    rewrite Hb in Hg. now apply last_where_In in Hg.
Qed.

Lemma executed_reaches (w : World glstate) (r : Request) :
  log_wf w → In r (executed w) → reaches_gl r = true.
Proof.
  unfold log_wf, executed. rewrite Forall_forall.
  intros H Hr. apply in_map_iff in Hr as (a & <- & Ha).
  apply list_elem_of_In in Ha. apply (H a Ha).
Qed.

Lemma log_wf_initial (g : glstate) (workerId : value) :
  log_wf (initial g workerId).
Proof. apply Forall_nil_2. Qed.

(** ** Routing and replies *)

(** C7: a message whose [workerId] is not strictly equal to the proxy's is
    dropped: [onMessage] returns at once and the whole world (every field of
    the proxy, the context, the operations applied to it, the messages
    posted, the promises resolved) is what it was. *)
Theorem foreign_message_changes_nothing (m : Message) (w : World glstate) :
  strict_eq (m_workerId m) (this_workerId (proxy w)) = false →
  onMessage m w = (Ret tt, w).
Proof. apply onMessage_foreign. Qed.

Lemma strict_eq_undefined (v : value) :
  v ≠ VUndefined → strict_eq VUndefined v = false.
Proof.
  unfold VUndefined. intros H. destruct v as [[]| | |]; simpl; congruence.
Qed.

(** C10: [workerId] in gl-worker.js is never assigned, so the message of
    every stub call and the frame-end signal carry [workerId: undefined];
    a proxy whose own [workerId] is not [undefined] drops both and its world
    is unchanged. *)
Theorem worker_messages_are_dropped (functionName : string)
    (arguments : list value) (s : GlWorker.State) (w : World glstate) :
  this_workerId (proxy w) ≠ VUndefined →
  m_workerId (fst (GlWorker.makeStub functionName arguments s)) = VUndefined ∧
  m_workerId GlWorker.frameEnd = VUndefined ∧
  onMessage (fst (GlWorker.makeStub functionName arguments s)) w
    = (Ret tt, w) ∧
  onMessage GlWorker.frameEnd w = (Ret tt, w).
Proof.
  intros H. split; [reflexivity |]. split; [reflexivity |].
  split; apply onMessage_foreign; simpl; now apply strict_eq_undefined.
Qed.

Lemma executeCommand_value (m : Message) (w : World glstate) (v : value) :
  fst (executeCommand m w) = Ret v → v = VUndefined.
Proof.
  unfold executeCommand. unfold bind at 1.
  destruct (m_messages m) as [l|].
  - destruct (forOf l _ w) as [[[]|e] w1]; simpl; congruence.
  - destruct (bind (executeOneCommand m) _ w) as [[[]|e] w1]; simpl;
      congruence.
Qed.

Lemma executeCommand_posted (m : Message) (w : World glstate) :
  posted (snd (executeCommand m w)) = posted w.
Proof.
  destruct (applies_executeCommand m w) as (d & _ & _ & _ & Hun).
  apply Hun.
Qed.

(** Whatever [onMessage] posts is a reply to a message that asked for one,
    and its [result] is [undefined]. *)
Lemma onMessage_posted (m : Message) (w : World glstate) :
  posted (snd (onMessage m w)) = posted w ∨
  (truthy (m_wantsResponse m) = true ∧
   posted (snd (onMessage m w)) = posted w ++ [PReply (m_id m) VUndefined]).
Proof.
  destruct (accepts (proxy w) m) eqn:Ha.
  - destruct (buffering (proxy w)) eqn:Hb.
    + rewrite (onMessage_buffers m w Ha Hb). now left.
    + rewrite (onMessage_executes m w Ha Hb). unfold bind.
      pose proof (executeCommand_value m w) as Hv.
      pose proof (executeCommand_posted m w) as Hp.
      destruct (executeCommand m w) as [[v|e] w1]; simpl in *; [| now left].
      rewrite (Hv v eq_refl).
      destruct (truthy (m_wantsResponse m)); simpl; [right | left];
        now rewrite Hp.
  - unfold accepts in Ha.
    destruct (strict_eq (m_workerId m) (this_workerId (proxy w))) eqn:Hs.
    + simpl in Ha. apply negb_false_iff, andb_true_iff in Ha as [Hl Hf].
      apply bool_decide_eq_true in Hl as [l Hl].
      rewrite (onMessage_frameEnd m w l Hs Hl Hf). now left.
    + rewrite (onMessage_foreign m w Hs). now left.
Qed.

(** C9: the message a stub posts has the fields [workerId], [id], [name]
    and [args] and nothing else, so [wantsResponse], [isFrameEnd] and
    [messages] read as absent; a proxy that receives it, in whatever state,
    posts nothing back. *)
Theorem stub_request_is_never_answered (functionName : string)
    (arguments : list value) (s : GlWorker.State) (w : World glstate) :
  let message := fst (GlWorker.makeStub functionName arguments s) in
  message =
    single {| m_workerId := GlWorker.workerId;
              m_id := PNum (GlWorker.id s);
              m_name := PStr functionName;
              m_args := Some arguments;
              m_wantsResponse := VUndefined;
              m_isFrameEnd := VUndefined |} ∧
  truthy (m_wantsResponse message) = false ∧
  posted (snd (onMessage message w)) = posted w.
Proof.
  cbv zeta. split; [reflexivity |]. split; [reflexivity |].
  destruct (onMessage_posted (fst (GlWorker.makeStub functionName arguments s))
              w) as [H|[H _]]; [assumption | discriminate].
Qed.

Lemma executeCommand_single (r : Request) (w w' : World glstate)
    (v : value) :
  executeOneCommand r w = (Ret v, w') →
  executeCommand (single r) w = (Ret VUndefined, w').
Proof.
  intros H. unfold executeCommand, bind. simpl. now rewrite H.
Qed.

(** C2 as amended: a request whose name is on the suppression list is
    skipped by [executeOneCommand] whatever its arguments, leaving the world
    as it was; dispatched to its proxy while that is not buffering, it
    applies nothing to the context and changes no field of the proxy, and a
    reply carrying its id is posted exactly when it has [wantsResponse]. *)
Theorem suppressed_request_is_not_applied (r : Request) (a : list value)
    (w : World glstate) :
  m_args r = Some a → blacklist (ToString (m_name r)) = true →
  executeOneCommand r w = (Ret VUndefined, w) ∧
  (accepts (proxy w) (single r) = true → buffering (proxy w) = false →
   let w' := snd (onMessage (single r) w) in
   proxy w' = proxy w ∧ gl w' = gl w ∧ applied w' = applied w ∧
   if truthy (m_wantsResponse r)
   then ∃ result, posted w' = posted w ++ [PReply (m_id r) result]
   else posted w' = posted w).
Proof.
  intros Ha Hb.
  assert (executeOneCommand r w = (Ret VUndefined, w)) as H.
  { apply (executeOneCommand_skipped r a w Ha).
    unfold reaches_gl. rewrite Hb. apply andb_false_r. }
  split; [assumption |]. intros Hacc Hbuf. cbv zeta.
  rewrite (onMessage_executes _ w Hacc Hbuf). unfold bind.
  rewrite (executeCommand_single r w w VUndefined H). simpl.
  destruct (truthy (m_wantsResponse r)); simpl; eauto.
Qed.

(** ** Buffering windows *)

(** C4: messages delivered while the proxy is buffering are appended to the
    queue in the order they arrive (those the proxy accepts; the others do
    not touch it).  [executeFrameCommands] then hands the queued requests
    to the context in exactly the queue's order, batches expanded in place
    and the requests that never reach the context left out: what it applied
    is always a prefix of that list, it is the whole list when the flush
    returns, and then the queue is empty and buffering is off.  The flush
    returns whenever no queued request throws. *)
Theorem flush_applies_queue_in_order (w : World glstate)
    (ms : list Message) :
  buffering (proxy w) = true →
  let w1 := dispatch ms w in
  let queue := commandBuffer (proxy w) ++ List.filter (accepts (proxy w)) ms in
  let expected := List.filter reaches_gl (flat_map requests_of queue) in
  let w2 := snd (executeFrameCommands w1) in
  let done := applied_since (length (applied w)) w2 in
  commandBuffer (proxy w1) = queue ∧
  done `prefix_of` expected ∧
  (fst (executeFrameCommands w1) = Ret tt →
   done = expected ∧ commandBuffer (proxy w2) = [] ∧
   buffering (proxy w2) = false) ∧
  (Forall returns (flat_map requests_of queue) →
   fst (executeFrameCommands w1) = Ret tt).
Proof.
  intros Hb. cbv zeta.
  destruct (dispatch_buffering ms w Hb) as (Hp & _ & Hap & _).
  assert (commandBuffer (proxy (dispatch ms w)) =
          commandBuffer (proxy w) ++ List.filter (accepts (proxy w)) ms)
    as Hq by now rewrite Hp.
  destruct (executeFrameCommands_spec (dispatch ms w))
    as (d & Hlog & Hpre & Hret & Hbuf & _).
  rewrite Hap in Hlog. rewrite Hq in Hpre, Hret.
  rewrite (since_app _ _ _ Hlog).
  split; [assumption |]. split; [assumption |]. split.
  - intros H. destruct (Hret H). auto.
  - intros H. apply executeFrameCommands_returns. now rewrite Hq.
Qed.

(** C5: on a proxy reached by any run, open a window with
    [getFrameCommands], deliver any messages, let other users alter the
    context, and flush.  After whatever was still queued when the window
    opened, the flush hands to the context first the remembered useProgram
    request (if there is one), then the remembered targeted binds, and only
    then the requests buffered during the window: what it applied is a
    prefix of that list, the whole list when the flush returns, and it
    returns whenever none of these requests throws. *)
Theorem sticky_state_is_replayed_first (g : glstate) (workerId : value)
    (ops : list (Op glstate)) (now : Z) (ms : list Message)
    (f : glstate → glstate) :
  let w := run ops (initial g workerId) in
  let w1 := snd (getFrameCommands now w) in
  let w2 := alter_gl f (dispatch ms w1) in
  let left_over := flat_map requests_of (commandBuffer (proxy w)) in
  let window := flat_map requests_of (List.filter (accepts (proxy w1)) ms) in
  let expected :=
    List.filter reaches_gl left_over ++
    seeds (proxy w) ++ List.filter reaches_gl window in
  let done :=
    applied_since (length (applied w)) (snd (executeFrameCommands w2)) in
  buffering (proxy w1) = true ∧
  done `prefix_of` expected ∧
  (fst (executeFrameCommands w2) = Ret tt → done = expected) ∧
  (Forall returns (left_over ++ seeds (proxy w) ++ window) →
   fst (executeFrameCommands w2) = Ret tt).
Proof.
  cbv zeta. set (w := run ops (initial g workerId)).
  assert (sticky_inv w) as Hs by apply run_sticky_inv, sticky_inv_initial.
  assert (log_wf w) as Hl by apply run_log_wf, log_wf_initial.
  rewrite (getFrameCommands_spec now w). simpl snd.
  set (w1 := {| proxy := _ |}).
  destruct (dispatch_buffering ms w1 eq_refl) as (Hp & _ & Hap & _).
  set (w2 := alter_gl f (dispatch ms w1)).
  assert (commandBuffer (proxy w2) =
          (commandBuffer (proxy w) ++ map single (seeds (proxy w))) ++
          List.filter (accepts (proxy w1)) ms) as Hq.
  { unfold w2. simpl. now rewrite Hp. }
  assert (applied w2 = applied w) as Hap2 by (unfold w2; simpl; now rewrite Hap).
  assert (List.filter reaches_gl (seeds (proxy w)) = seeds (proxy w)) as Hf.
  { apply filter_all. intros r Hr.
    eapply executed_reaches; [exact Hl |]. now apply seeds_executed. }
  destruct (executeFrameCommands_spec w2) as (d & Hlog & Hpre & Hret & _).
  rewrite Hap2 in Hlog. rewrite Hq in Hpre, Hret.
  rewrite !flat_map_app, flat_map_single, !List.filter_app, Hf,
    <- app_assoc in Hpre, Hret.
  rewrite (since_app _ _ _ Hlog).
  split; [reflexivity |]. split; [assumption |]. split.
  - intros H. now destruct (Hret H).
  - intros H. apply executeFrameCommands_returns.
    now rewrite Hq, !flat_map_app, flat_map_single, <- app_assoc.
Qed.

(** ** Results *)

Lemma sticky_after_frame (r : Request) (p : Proxy) :
  cache (sticky_after r p) = cache p ∧
  uncloneables (sticky_after r p) = uncloneables p.
Proof.
  unfold sticky_after.
  destruct (is_useProgram r); destruct (is_targetted r); auto.
Qed.

(** C6 as amended: when the operation of an executed request returns a
    primitive other than [null], [executeOneCommand] returns that primitive
    as it is; the entry with the resolved arguments and the result is
    appended to the operation's result trace when the primitive is truthy,
    and the trace is left as it was when it is falsy. *)
Theorem primitive_result_is_traced_when_truthy (r : Request)
    (a : list value) (w : World glstate) (p : prim) (g' : glstate) :
  m_args r = Some a → reaches_gl r = true →
  let args := resolveArgs (uncloneables (proxy w)) a in
  gl_outcome (ToString (m_name r)) args (gl w) = (Ret (HPrim p), g') →
  p ≠ PNull →
  fst (executeOneCommand r w) = Ret (VPrim p) ∧
  cache (proxy (snd (executeOneCommand r w))) =
    if truthy (VPrim p)
    then traced (ToString (m_name r)) args (VPrim p) (cache (proxy w))
    else cache (proxy w).
Proof.
  intros Ha Hr args Hg Hp.
  pose proof (executeOneCommand_applied r a w Ha Hr) as H. cbv zeta in H.
  fold args in H. rewrite Hg in H.
  assert (is_object (VPrim p) = false) as Ho by (now destruct p).
  unfold result_value, result_after in H. simpl of_host in H.
  rewrite Ho, andb_true_r in H.
  destruct (truthy (VPrim p)); rewrite H; simpl;
    now rewrite (proj1 (sticky_after_frame _ _)).
Qed.

Lemma executeOneCommand_keeps_handle (r : Request) (w : World glstate)
    (key : string) (h : hostval) :
  ToString (m_id r) ≠ key →
  uncloneables (proxy w) !! key = Some h →
  uncloneables (proxy (snd (executeOneCommand r w))) !! key = Some h.
Proof.
  intros Hk Hw. destruct (m_args r) as [a|] eqn:Ha.
  - destruct (reaches_gl r) eqn:Hr.
    + pose proof (executeOneCommand_applied r a w Ha Hr) as H.
      cbv zeta in H.
      destruct (gl_outcome _ _ _) as [[h'|e] g]; rewrite H; simpl.
      * unfold result_after.
        destruct (truthy (of_host h') && negb (is_object (of_host h')));
          destruct (is_object (of_host h')); simpl;
          rewrite ?lookup_insert_ne by assumption;
          now rewrite (proj2 (sticky_after_frame _ _)).
      * now rewrite (proj2 (sticky_after_frame _ _)).
    + now rewrite (executeOneCommand_skipped r a w Ha Hr).
  - now rewrite (executeOneCommand_no_args r w Ha).
Qed.

(** C3 as amended: when the operation of an executed request returns a
    value whose [typeof] is ['object'], [executeOneCommand] returns the
    handle [{fakeClone: true, index: id}] and not the object, and the
    registry holds the object under the request's id.  After any further
    requests whose ids give other registry keys, the entry is still there,
    and a request that passes the handle as its [i]-th argument has that
    argument resolved to the very object stored: that is what the context
    is applied to. *)
Theorem handle_resolves_to_stored_object (r : Request) (a : list value)
    (w : World glstate) (h : hostval) (g' : glstate)
    (later : list Request) (user : Request) (b : list value) (i : nat) :
  m_args r = Some a → reaches_gl r = true →
  gl_outcome (ToString (m_name r))
    (resolveArgs (uncloneables (proxy w)) a) (gl w) = (Ret h, g') →
  is_object (of_host h) = true →
  Forall (fun r' => ToString (m_id r') ≠ ToString (m_id r)) later →
  m_args user = Some b → b !! i = Some (VWire VTrue (m_id r)) →
  reaches_gl user = true →
  let w1 := snd (executeOneCommand r w) in
  let w2 := run (map (ExecuteOneCommand glstate) later) w1 in
  let w3 := snd (executeOneCommand user w2) in
  fst (executeOneCommand r w) = Ret (VWire VTrue (m_id r)) ∧
  uncloneables (proxy w1) !! ToString (m_id r) = Some h ∧
  uncloneables (proxy w2) !! ToString (m_id r) = Some h ∧
  ∃ entry, last (applied w3) = Some entry ∧ ap_request entry = user ∧
           ap_args entry !! i = Some (of_host h).
Proof.
  intros Ha Hr Hg Ho Hlater Hb Hi Hu. cbv zeta.
  pose proof (executeOneCommand_applied r a w Ha Hr) as H. cbv zeta in H.
  rewrite Hg in H. rewrite H. simpl.
  assert (uncloneables
            (result_after r (resolveArgs (uncloneables (proxy w)) a) h
               (sticky_after
                  (with_args r (resolveArgs (uncloneables (proxy w)) a))
                  (proxy w))) !! ToString (m_id r) = Some h) as H1.
  { unfold result_after. rewrite Ho. simpl. apply lookup_insert_eq. }
  split; [unfold result_value; now rewrite Ho |].
  split; [assumption |].
  match goal with |- context [run _ ?w1] => set (w1' := w1) end.
  assert (uncloneables (proxy (run (map (ExecuteOneCommand glstate) later) w1'))
            !! ToString (m_id r) = Some h) as H2.
  { assert (uncloneables (proxy w1') !! ToString (m_id r) = Some h) as Hw1
      by exact H1.
    clearbody w1'. clear H1 H. revert w1' Hw1.
    induction Hlater as [|r' later Hr' _ IH]; intros w1' Hw1; simpl;
      [assumption |].
    apply IH. now apply executeOneCommand_keeps_handle. }
  split; [assumption |].
  set (w2 := run _ w1') in *.
  pose proof (executeOneCommand_applied user b w2 Hb Hu) as H3.
  cbv zeta in H3.
  destruct (gl_outcome (ToString (m_name user)) _ _) as [[h'|e] g''];
    rewrite H3; simpl;
    rewrite last_snoc; eexists; (split; [reflexivity |]); simpl;
    (split; [reflexivity |]);
    unfold resolveArgs; rewrite list_lookup_fmap, Hi; simpl;
    unfold resolveArg, lookup_uncloneable; simpl; now rewrite H2.
Qed.

End Properties.

(** * The proxy on the demo context *)

(** Every method of the demo context returns. *)
Lemma demo_returns (r : Request) :
  is_Some (m_args r) →
  Demo.gl_member (ToString (m_name r)) ≠ MData →
  returns N Demo.gl_member Demo.gl_apply r.
Proof.
  intros Ha Hm. split; [assumption |]. intros Hr. split.
  - unfold reaches_gl in Hr.
    destruct (Demo.gl_member (ToString (m_name r)));
      [discriminate | congruence | reflexivity].
  - intros args g. unfold Demo.gl_apply. repeat case_match; eauto.
Qed.

(** C1: the page has a context whose [getParameter] returns 34 and a proxy
    for worker 1 that is not buffering; the worker asks for
    [getParameter(3379)] with [wantsResponse].  The operation is applied and
    returns 34, which the result trace records, yet the reply that is posted
    carries [undefined]: [executeCommand] does not return what
    [executeOneCommand] gave it.  The same happens to the handle of a
    created buffer. *)
Theorem reply_carries_undefined_not_the_result :
  let w := snd (Demo.onMessage Demo.m_getParameter Demo.start) in
  let w' := snd (Demo.onMessage Demo.m_createBuffer Demo.start) in
  fst (Demo.executeOneCommand Demo.m_getParameter Demo.start)
    = Ret (VPrim (PNum 34)) ∧
  map ap_result (applied w) = [Ret (HPrim (PNum 34))] ∧
  cache (proxy w) !! "getParameter" =
    Some [{| te_args := [VPrim (PNum 3379)]; te_res := PNum 34 |}] ∧
  posted w = [PReply (PNum 7) VUndefined] ∧
  fst (Demo.executeOneCommand Demo.m_createBuffer Demo.start)
    = Ret (Demo.handle 0) ∧
  posted w' = [PReply (PNum 0) VUndefined].
Proof. vm_compute. repeat split. Qed.

(** C2, counterexample: [clear] is on the suppression list, and a [clear]
    request with [wantsResponse] sent to a proxy that is not buffering is
    answered. *)
Lemma suppressed_request_is_answered :
  blacklist "clear" = true ∧
  applied (snd (Demo.onMessage Demo.m_clear Demo.start)) = [] ∧
  posted (snd (Demo.onMessage Demo.m_clear Demo.start))
    = [PReply (PNum 5) VUndefined] ∧
  posted (snd (Demo.onMessage Demo.m_clear Demo.start)) ≠ posted Demo.start.
Proof. vm_compute. repeat split. discriminate. Qed.

(** C2 as amended, at the [clear] request above. *)
Lemma suppressed_request_is_not_applied_witness :
  let w' := snd (Demo.onMessage Demo.m_clear Demo.start) in
  Demo.executeOneCommand Demo.m_clear Demo.start
    = (Ret VUndefined, Demo.start) ∧
  proxy w' = proxy Demo.start ∧ gl w' = gl Demo.start ∧
  applied w' = applied Demo.start ∧
  ∃ result, posted w' = posted Demo.start ++ [PReply (PNum 5) result].
Proof.
  destruct (suppressed_request_is_not_applied Demo.gl_member Demo.gl_apply
              Demo.m_clear [VPrim (PNum 16640)] Demo.start
              eq_refl eq_refl) as [H1 H2].
  split; [exact H1 |]. exact (H2 eq_refl eq_refl).
Defined.

(** C6, counterexample: [getError] is applied and returns the primitive 0,
    which [executeOneCommand] returns, and nothing is added to the result
    trace of [getError]. *)
Lemma falsy_result_is_not_traced :
  let w := snd (Demo.executeOneCommand Demo.m_getError Demo.start) in
  map ap_result (applied w) = [Ret (HPrim (PNum 0))] ∧
  fst (Demo.executeOneCommand Demo.m_getError Demo.start)
    = Ret (VPrim (PNum 0)) ∧
  cache (proxy w) !! "getError" = None ∧
  cache (proxy w) !! "getError"
    ≠ Some [{| te_args := []; te_res := PNum 0 |}].
Proof. vm_compute. repeat split. discriminate. Qed.

(** C6 as amended, at [getParameter], which returns 34. *)
Lemma primitive_result_is_traced_when_truthy_witness :
  fst (Demo.executeOneCommand Demo.m_getParameter Demo.start)
    = Ret (VPrim (PNum 34)) ∧
  cache (proxy (snd (Demo.executeOneCommand Demo.m_getParameter Demo.start)))
    = traced "getParameter" [VPrim (PNum 3379)] (PNum 34) ∅.
Proof.
  exact (primitive_result_is_traced_when_truthy Demo.gl_member Demo.gl_apply
           Demo.m_getParameter [VPrim (PNum 3379)] Demo.start (PNum 34) 0%N
           eq_refl eq_refl eq_refl ltac:(discriminate)).
Defined.

(** C3, counterexample: request 0 creates a buffer and gets the handle with
    index 0; a second request with id 0 creates a program, which replaces
    the buffer in the registry; a later [bindBuffer] that passes the handle
    is applied to the program, not to the buffer the handle was given
    for. *)
Lemma reused_id_replaces_stored_object :
  let w1 := snd (Demo.executeOneCommand Demo.m_createBuffer Demo.start) in
  let w3 :=
    Demo.dispatch [Demo.m_createProgram_again; Demo.m_bindBuffer] w1 in
  fst (Demo.executeOneCommand Demo.m_createBuffer Demo.start)
    = Ret (Demo.handle 0) ∧
  uncloneables (proxy w1) !! "0" = Some (HObj "WebGLBuffer" 0) ∧
  m_args Demo.m_bindBuffer = Some [VPrim (PNum 34962); Demo.handle 0] ∧
  map ap_args (applied w3)
    = [[]; []; [VPrim (PNum 34962); VHost "WebGLProgram" 1]] ∧
  resolveArg (uncloneables (proxy w3)) (Demo.handle 0)
    ≠ VHost "WebGLBuffer" 0.
Proof. vm_compute. repeat split. discriminate. Qed.

(** C3 as amended, at the buffer of request 0, used by [bindBuffer] after a
    program was created and selected under other ids. *)
Lemma handle_resolves_to_stored_object_witness :
  let w1 := snd (Demo.executeOneCommand Demo.m_createBuffer Demo.start) in
  let w2 :=
    Demo.run (map (ExecuteOneCommand N)
                [m_request Demo.m_createProgram; m_request Demo.m_useProgram])
      w1 in
  let w3 := snd (Demo.executeOneCommand Demo.m_bindBuffer w2) in
  fst (Demo.executeOneCommand Demo.m_createBuffer Demo.start)
    = Ret (Demo.handle 0) ∧
  uncloneables (proxy w1) !! "0" = Some (HObj "WebGLBuffer" 0) ∧
  uncloneables (proxy w2) !! "0" = Some (HObj "WebGLBuffer" 0) ∧
  ∃ entry, last (applied w3) = Some entry ∧
           ap_request entry = Demo.m_bindBuffer ∧
           ap_args entry !! 1%nat = Some (VHost "WebGLBuffer" 0).
Proof.
  apply (handle_resolves_to_stored_object Demo.gl_member Demo.gl_apply
           Demo.m_createBuffer [] Demo.start (HObj "WebGLBuffer" 0) 1%N
           [m_request Demo.m_createProgram; m_request Demo.m_useProgram]
           Demo.m_bindBuffer [VPrim (PNum 34962); Demo.handle 0] 1%nat);
    try reflexivity.
  repeat constructor; vm_compute; discriminate.
Defined.

(** C7, at a request of worker 2 delivered to the proxy of worker 1. *)
Lemma foreign_message_changes_nothing_witness :
  strict_eq (m_workerId Demo.m_foreign) (this_workerId (proxy Demo.start))
    = false ∧
  Demo.onMessage Demo.m_foreign Demo.start = (Ret tt, Demo.start).
Proof.
  split; [reflexivity |].
  apply (foreign_message_changes_nothing Demo.gl_member Demo.gl_apply).
  reflexivity.
Defined.

(** C10, at the first call of the [drawArrays] stub and the proxy of worker
    1. *)
Lemma worker_messages_are_dropped_witness :
  let message := fst (GlWorker.makeStub "drawArrays" [] GlWorker.init) in
  m_workerId message = VUndefined ∧
  m_workerId GlWorker.frameEnd = VUndefined ∧
  Demo.onMessage message Demo.start = (Ret tt, Demo.start) ∧
  Demo.onMessage GlWorker.frameEnd Demo.start = (Ret tt, Demo.start).
Proof.
  apply (worker_messages_are_dropped Demo.gl_member Demo.gl_apply
           "drawArrays" [] GlWorker.init Demo.start).
  discriminate.
Defined.

(** C4, on the demo proxy while it collects a frame: the two remembered
    requests are in the queue, the messages of the window are delivered, and
    the flush applies the queue in order and empties it. *)
Lemma flush_applies_queue_in_order_witness :
  let w1 := Demo.dispatch Demo.window Demo.collecting in
  let w2 := snd (Demo.executeFrameCommands w1) in
  buffering (proxy Demo.collecting) = true ∧
  fst (Demo.executeFrameCommands w1) = Ret tt ∧
  applied_since N (length (applied Demo.collecting)) w2 =
    List.filter (reaches_gl Demo.gl_member)
      (flat_map requests_of
         (commandBuffer (proxy Demo.collecting) ++
          List.filter (accepts (proxy Demo.collecting)) Demo.window)) ∧
  commandBuffer (proxy w2) = [] ∧ buffering (proxy w2) = false.
Proof.
  destruct (flush_applies_queue_in_order Demo.gl_member Demo.gl_apply
              Demo.collecting Demo.window ltac:(vm_compute; reflexivity))
    as (_ & _ & Hret & Htotal).
  assert (fst (Demo.executeFrameCommands
                 (Demo.dispatch Demo.window Demo.collecting)) = Ret tt) as H.
  { apply Htotal.
    match goal with |- Forall _ ?l =>
      let l' := eval vm_compute in l in
      replace l with l' by (vm_compute; reflexivity)
    end.
    repeat (apply Forall_cons; split;
            [apply demo_returns; [eexists; reflexivity |
                                  vm_compute; discriminate] |]).
    apply Forall_nil_2. }
  split; [vm_compute; reflexivity |]. split; [exact H |]. exact (Hret H).
Defined.

(** The names of the operations that flush applied, in order. *)
Example flush_applies_queue_in_order_names :
  let w1 := Demo.dispatch Demo.window Demo.collecting in
  map Demo.name_of (flat_map requests_of (commandBuffer (proxy w1))) =
    ["useProgram"; "bindBuffer"; "drawArrays"; "clear"; "bindTexture";
     "getError"] ∧
  map Demo.name_of
    (applied_since N (length (applied Demo.collecting))
       (snd (Demo.executeFrameCommands w1))) =
    ["useProgram"; "bindBuffer"; "drawArrays"; "bindTexture"; "getError"].
Proof. vm_compute. split; reflexivity. Qed.

(** C5, on the demo proxy after its set-up: a window is opened, the
    messages above arrive, somebody else uses the context, and the flush
    applies the remembered useProgram and bindBuffer before the rest. *)
Lemma sticky_state_is_replayed_first_witness :
  let w := Demo.run Demo.setup Demo.start in
  let w1 := snd (getFrameCommands N 0 w) in
  let w2 := alter_gl N.succ (Demo.dispatch Demo.window w1) in
  fst (Demo.executeFrameCommands w2) = Ret tt ∧
  applied_since N (length (applied w)) (snd (Demo.executeFrameCommands w2)) =
    List.filter (reaches_gl Demo.gl_member)
      (flat_map requests_of (commandBuffer (proxy w))) ++
    seeds (proxy w) ++
    List.filter (reaches_gl Demo.gl_member)
      (flat_map requests_of (List.filter (accepts (proxy w1)) Demo.window)).
Proof.
  destruct (sticky_state_is_replayed_first Demo.gl_member Demo.gl_apply
              0%N (PNum 1) Demo.setup 0 Demo.window N.succ)
    as (_ & _ & Hret & Htotal).
  assert (fst (Demo.executeFrameCommands
                 (alter_gl N.succ
                    (Demo.dispatch Demo.window
                       (snd (getFrameCommands N 0
                               (Demo.run Demo.setup Demo.start))))))
          = Ret tt) as H.
  { apply Htotal.
    match goal with |- Forall _ ?l =>
      let l' := eval vm_compute in l in
      replace l with l' by (vm_compute; reflexivity)
    end.
    repeat (apply Forall_cons; split;
            [apply demo_returns; [eexists; reflexivity |
                                  vm_compute; discriminate] |]).
    apply Forall_nil_2. }
  split; [exact H |]. exact (Hret H).
Defined.

(** The remembered requests of the demo proxy, and what the flush of the
    window applies. *)
Example sticky_state_is_replayed_first_names :
  let w := Demo.run Demo.setup Demo.start in
  let w2 :=
    alter_gl N.succ
      (Demo.dispatch Demo.window (snd (getFrameCommands N 0 w))) in
  map Demo.name_of (seeds (proxy w)) = ["useProgram"; "bindBuffer"] ∧
  map Demo.name_of
    (applied_since N (length (applied w))
       (snd (Demo.executeFrameCommands w2))) =
    ["useProgram"; "bindBuffer"; "drawArrays"; "bindTexture"; "getError"].
Proof. vm_compute. split; reflexivity. Qed.

(** * Further properties of the proxy *)

Section ProxyBehaviour.

Context {glstate : Type}.
Variable gl_member : string → member.
Variable gl_apply : string → list value → glstate → outcome hostval * glstate.

Abbreviation executeOneCommand := (executeOneCommand glstate gl_member gl_apply).
Abbreviation executeCommand := (executeCommand glstate gl_member gl_apply).
Abbreviation onMessage := (onMessage glstate gl_member gl_apply).
Abbreviation executeFrameCommands :=
  (executeFrameCommands glstate gl_member gl_apply).
Abbreviation dropFrameCommands := (dropFrameCommands glstate).
Abbreviation getFrameCommands := (getFrameCommands glstate).
Abbreviation dispatch := (dispatch glstate gl_member gl_apply).
Abbreviation step := (step glstate gl_member gl_apply).
Abbreviation run := (run glstate gl_member gl_apply).
Abbreviation forOf := (forOf glstate).
Abbreviation bind := (bind glstate).
Abbreviation ret := (ret glstate).
Abbreviation reaches_gl := (reaches_gl gl_member).
Abbreviation gl_outcome := (gl_outcome glstate gl_member gl_apply).
Abbreviation returns := (returns glstate gl_member gl_apply).
Abbreviation this := (this glstate).
Abbreviation update := (update glstate).
Abbreviation when := (when glstate).
Abbreviation postMessage := (postMessage glstate).
Abbreviation push := (push glstate).
Abbreviation resolve := (resolve glstate).

(** ** Requests that are not applied *)

(** X1: a request that names an operation the context does not have (or a
    member that is falsy, such as a constant 0) is ignored, whatever its
    name and arguments: [executeOneCommand] returns [undefined] and the
    world is what it was, so that not even a useProgram or a bind is
    remembered. *)
Theorem unknown_operation_changes_nothing (r : Request) (a : list value)
    (w : World glstate) :
  m_args r = Some a →
  member_truthy (gl_member (ToString (m_name r))) = false →
  executeOneCommand r w = (Ret VUndefined, w).
Proof.
  intros Ha Hm. apply (executeOneCommand_skipped gl_member gl_apply r a w Ha).
  unfold reaches_gl. now rewrite Hm.
Qed.

(** X2: a message without an [args] array that the proxy accepts while it is
    not buffering (the frame-end signal before any frame was requested is
    one) makes [onMessage] throw a TypeError: the world is what it was and
    nothing is posted, even if the message asked for a response. *)
Theorem message_without_args_throws (m : Message) (w : World glstate) :
  accepts (proxy w) m = true → buffering (proxy w) = false →
  m_messages m = None → m_args m = None →
  onMessage m w = (Throw TypeError, w).
Proof.
  intros Hacc Hbuf Hm Ha.
  rewrite (onMessage_executes gl_member gl_apply m w Hacc Hbuf).
  unfold bind, executeCommand. rewrite Hm. unfold bind.
  now rewrite (executeOneCommand_no_args gl_member gl_apply m w Ha).
Qed.

(** X3: while the proxy is buffering, delivering messages applies nothing to
    the context and posts nothing, not even a reply that was asked for;
    the only field of the proxy that changes is the queue, which receives
    the accepted messages in order. *)
Theorem buffering_defers_everything (ms : list Message) (w : World glstate) :
  buffering (proxy w) = true →
  proxy (dispatch ms w) =
    set_commandBuffer
      (commandBuffer (proxy w) ++ List.filter (accepts (proxy w)) ms)
      (proxy w) ∧
  gl (dispatch ms w) = gl w ∧ applied (dispatch ms w) = applied w ∧
  posted (dispatch ms w) = posted w.
Proof. apply dispatch_buffering. Qed.

(** X4: [getFrameCommands] posts the frame message and returns a new
    promise; a frame-end signal addressed to the proxy then resolves that
    very promise and does nothing else: it is neither queued nor executed,
    though the proxy is buffering. *)
Theorem frame_end_resolves_the_returned_promise (now : Z) (m : Message)
    (w : World glstate) :
  strict_eq (m_workerId m) (this_workerId (proxy w)) = true →
  truthy (m_isFrameEnd m) = true →
  let w1 := snd (getFrameCommands now w) in
  fst (getFrameCommands now w) = Ret (promises w) ∧
  posted w1 = posted w ++ [PFrame now] ∧
  buffering (proxy w1) = true ∧
  onMessage m w1 = resolve (promises w) w1 ∧
  resolved (snd (onMessage m w1)) = resolved w ++ [promises w] ∧
  commandBuffer (proxy (snd (onMessage m w1))) = commandBuffer (proxy w1) ∧
  applied (snd (onMessage m w1)) = applied w.
Proof.
  intros Hs Hf. cbv zeta. rewrite (getFrameCommands_spec now w). simpl.
  rewrite (onMessage_frameEnd gl_member gl_apply m _ (promises w));
    auto.
  repeat split; reflexivity.
Qed.

(** X5: a window that is opened, filled and then dropped leaves no trace:
    nothing was applied to the context, the registry, the result trace and
    the remembered state are what they were, the queue is empty and
    buffering is off.  What remains is the frame message that was posted and
    the new frame-end listener. *)
Theorem dropped_window_applies_nothing (now : Z) (ms : list Message)
    (w : World glstate) :
  let w3 :=
    snd (dropFrameCommands (dispatch ms (snd (getFrameCommands now w)))) in
  proxy w3 =
    set_frameEndListener (Some (promises w))
      (set_commandBuffer [] (set_buffering false (proxy w))) ∧
  gl w3 = gl w ∧ applied w3 = applied w ∧
  posted w3 = posted w ++ [PFrame now].
Proof.
  cbv zeta. rewrite (getFrameCommands_spec now w). simpl snd.
  match goal with |- context [dispatch ms ?w1] =>
    destruct (dispatch_buffering gl_member gl_apply ms w1 eq_refl)
      as (Hp & Hg & Ha & Hpo)
  end.
  unfold dropFrameCommands, bind, update. simpl.
  rewrite Hp, Hg, Ha, Hpo. auto.
Qed.

(** ** Errors *)

(** X6: a request that names a member of the context that is not a
    function (a constant such as DEPTH_TEST) makes [executeOneCommand]
    throw a TypeError; the context, the registry and the result trace are
    what they were and nothing is posted. *)
Theorem constant_is_not_callable (r : Request) (a : list value)
    (w : World glstate) :
  m_args r = Some a → reaches_gl r = true →
  gl_member (ToString (m_name r)) = MData →
  let w' := snd (executeOneCommand r w) in
  fst (executeOneCommand r w) = Throw TypeError ∧
  gl w' = gl w ∧
  uncloneables (proxy w') = uncloneables (proxy w) ∧
  cache (proxy w') = cache (proxy w) ∧
  posted w' = posted w.
Proof.
  intros Ha Hr Hm. cbv zeta.
  pose proof (executeOneCommand_applied gl_member gl_apply r a w Ha Hr) as H.
  cbv zeta in H. unfold gl_outcome in H. rewrite Hm in H.
  rewrite H. simpl.
  destruct (sticky_after_frame
              (with_args r (resolveArgs (uncloneables (proxy w)) a))
              (proxy w)) as [Hc Hu].
  auto.
Qed.


(** ** What a proxy never loses *)

Lemma extends_to_refl (w : World glstate) : extends_to w w.
Proof. unfold extends_to. repeat split; auto; reflexivity. Qed.

Lemma extends_to_trans (w1 w2 w3 : World glstate) :
  extends_to w1 w2 → extends_to w2 w3 → extends_to w1 w3.
Proof.
  intros (A1 & A2 & A3 & A4 & A5 & A6 & A7 & A8)
         (B1 & B2 & B3 & B4 & B5 & B6 & B7 & B8).
  unfold extends_to. split; [congruence |]. split; [set_solver |].
  split; [intros name; etransitivity; eauto |].
  split; [etransitivity; eauto |]. split; [etransitivity; eauto |].
  split; [etransitivity; eauto |]. split; [lia | auto].
Qed.

Lemma grows_ret {A} (a : A) : grows (ret a).
Proof. intros w. apply extends_to_refl. Qed.

Lemma grows_throw {A} (e : exn) : grows (throw glstate (A := A) e).
Proof. intros w. apply extends_to_refl. Qed.

Lemma grows_this : grows this.
Proof. intros w. apply extends_to_refl. Qed.

Lemma grows_bind {A B} (m : M glstate A) (k : A → M glstate B) :
  grows m → (∀ a, grows (k a)) → grows (bind m k).
Proof.
  intros Hm Hk w. unfold bind. specialize (Hm w).
  destruct (m w) as [[a|e] w1]; simpl in *; [| assumption].
  eapply extends_to_trans; [exact Hm | apply Hk].
Qed.

Lemma grows_when (b : bool) (m : M glstate unit) :
  grows m → grows (when b m).
Proof. intros Hm. destruct b; [assumption | apply grows_ret]. Qed.

Lemma grows_forOf {A} (xs : list A) (body : A → M glstate unit) :
  (∀ x, grows (body x)) → grows (forOf xs body).
Proof.
  intros Hbody. induction xs as [|x xs IH]; simpl.
  - apply grows_ret.
  - apply grows_bind; auto.
Qed.

(** An assignment to a field other than the registry, the trace and the
    listener. *)
Lemma grows_update (f : Proxy → Proxy) :
  (∀ p, this_workerId (f p) = this_workerId p) →
  (∀ p, uncloneables (f p) = uncloneables p) →
  (∀ p, cache (f p) = cache p) →
  (∀ p, is_Some (frameEndListener p) → is_Some (frameEndListener (f p))) →
  grows (update f).
Proof.
  intros H1 H2 H3 H4 w. unfold extends_to, trace_of. simpl.
  rewrite H1, H2, H3. repeat split; auto; reflexivity.
Qed.

Lemma grows_postMessage (msg : Posted) : grows (postMessage msg).
Proof.
  intros w. unfold extends_to. simpl.
  repeat split; auto; try reflexivity. now apply prefix_app_r.
Qed.

Lemma grows_resolve (n : nat) : grows (resolve n).
Proof.
  intros w. unfold extends_to. simpl.
  repeat split; auto; try reflexivity. now apply prefix_app_r.
Qed.

Lemma grows_newPromise : grows (newPromise glstate).
Proof.
  intros w. unfold extends_to. simpl.
  repeat split; auto; try reflexivity; lia.
Qed.

Lemma sticky_after_identity (r : Request) (p : Proxy) :
  this_workerId (sticky_after r p) = this_workerId p ∧
  frameEndListener (sticky_after r p) = frameEndListener p.
Proof.
  unfold sticky_after.
  destruct (is_useProgram r); destruct (is_targetted r); auto.
Qed.

Lemma result_after_grows (r : Request) (args : list value) (h : hostval)
    (p : Proxy) :
  this_workerId (result_after r args h p) = this_workerId p ∧
  frameEndListener (result_after r args h p) = frameEndListener p ∧
  dom (uncloneables p) ⊆ dom (uncloneables (result_after r args h p)) ∧
  ∀ name, trace_of name p `prefix_of` trace_of name (result_after r args h p).
Proof.
  unfold result_after, trace_of, traced.
  destruct (truthy (of_host h) && negb (is_object (of_host h)));
    destruct (is_object (of_host h)); simpl;
    (split; [reflexivity |]); (split; [reflexivity |]);
    (split; [rewrite ?dom_insert_L; set_solver |]);
    intros name; try reflexivity;
    (destruct (decide (ToString (m_name r) = name)) as [<-|Hne];
     [rewrite lookup_insert_eq; simpl; now apply prefix_app_r
     | now rewrite lookup_insert_ne]).
Qed.

Lemma grows_executeOneCommand (r : Request) : grows (executeOneCommand r).
Proof.
  intros w. destruct (m_args r) as [a|] eqn:Ha.
  - destruct (reaches_gl r) eqn:Hr.
    + pose proof (executeOneCommand_applied gl_member gl_apply r a w Ha Hr)
        as H.
      cbv zeta in H.
      set (r' := with_args r (resolveArgs (uncloneables (proxy w)) a)) in *.
      destruct (sticky_after_identity r' (proxy w)) as [Hi Hl].
      destruct (sticky_after_frame r' (proxy w)) as [Hc Hu].
      destruct (gl_outcome (ToString (m_name r)) _ _) as [[h|e] g];
        rewrite H; unfold extends_to; simpl.
      * destruct (result_after_grows r
                    (resolveArgs (uncloneables (proxy w)) a) h
                    (sticky_after r' (proxy w))) as (R1 & R2 & R3 & R4).
        rewrite R1, R2, Hi, Hl. rewrite Hu in R3.
        unfold trace_of in *. rewrite Hc in R4.
        repeat split; auto; try reflexivity. now apply prefix_app_r.
      * unfold trace_of. rewrite Hi, Hl, Hc, Hu.
        repeat split; auto; try reflexivity. now apply prefix_app_r.
    + rewrite (executeOneCommand_skipped gl_member gl_apply r a w Ha Hr).
      apply extends_to_refl.
  - rewrite (executeOneCommand_no_args gl_member gl_apply r w Ha).
    apply extends_to_refl.
Qed.

Ltac grow :=
  repeat first
    [ apply grows_executeOneCommand
    | apply grows_postMessage | apply grows_resolve | apply grows_newPromise
    | apply grows_update; [reflexivity | reflexivity | reflexivity | now auto]
    | apply grows_ret | apply grows_throw | apply grows_this
    | apply grows_when | apply grows_forOf | apply grows_bind
    | match goal with |- ∀ _, _ => intro end ].

Lemma grows_executeCommand (m : Message) : grows (executeCommand m).
Proof. unfold executeCommand. destruct (m_messages m); grow. Qed.

Lemma grows_onMessage (m : Message) : grows (onMessage m).
Proof.
  unfold onMessage. apply grows_bind; [apply grows_this |]. intros p.
  destruct (negb _); [apply grows_ret |].
  destruct (_ && _).
  - unfold call_frameEndListener. destruct (frameEndListener p); grow.
  - destruct (buffering p); [unfold push; grow |].
    apply grows_bind; [apply grows_executeCommand |]. grow.
Qed.

Lemma grows_executeFrameCommands : grows executeFrameCommands.
Proof.
  unfold executeFrameCommands.
  apply grows_bind; [grow |]. intros _.
  apply grows_bind; [apply grows_this |]. intros p.
  apply grows_bind; [| intros _; grow].
  apply grows_forOf. intros m.
  apply grows_bind; [apply grows_executeCommand |]. grow.
Qed.

Lemma grows_dropFrameCommands : grows dropFrameCommands.
Proof. unfold dropFrameCommands. grow. Qed.

Lemma grows_getFrameCommands (now : Z) : grows (getFrameCommands now).
Proof.
  unfold getFrameCommands.
  apply grows_bind; [grow |]. intros _.
  apply grows_bind; [apply grows_this |]. intros p.
  apply grows_bind; [destruct (lastUseProgram p); unfold push; grow |].
  intros _. unfold push.
  apply grows_bind; [apply grows_this |]. intros p'.
  apply grows_bind; [grow |]. intros _.
  apply grows_bind; [grow |]. intros _.
  apply grows_bind; [grow |]. intros res.
  apply grows_bind; [| grow].
  apply grows_update; try reflexivity. intros; simpl; eauto.
Qed.

Lemma run_extends (ops : list (Op glstate)) (w : World glstate) :
  extends_to w (run ops w).
Proof.
  revert w. induction ops as [|o ops IH]; intros w; simpl.
  - apply extends_to_refl.
  - eapply extends_to_trans; [| apply IH].
    destruct o; simpl.
    + apply grows_onMessage.
    + apply grows_executeCommand.
    + apply grows_executeOneCommand.
    + apply grows_executeFrameCommands.
    + apply grows_dropFrameCommands.
    + apply grows_getFrameCommands.
    + unfold extends_to. simpl. repeat split; auto; reflexivity.
Qed.

(** X8: the handle registry never shrinks: whatever happens to the proxy,
    a key that holds an object keeps holding one. *)
Theorem registry_never_shrinks (ops : list (Op glstate))
    (w : World glstate) (key : string) :
  is_Some (uncloneables (proxy w) !! key) →
  is_Some (uncloneables (proxy (run ops w)) !! key).
Proof.
  intros H. destruct (run_extends ops w) as (_ & Hd & _).
  apply elem_of_dom, Hd, elem_of_dom, H.
Qed.

(** X9: the result trace of every operation is append-only: whatever
    happens to the proxy, the entries it held stay, in their order, at the
    head of the trace. *)
Theorem result_trace_is_append_only (ops : list (Op glstate))
    (w : World glstate) (name : string) :
  trace_of name (proxy w) `prefix_of` trace_of name (proxy (run ops w)).
Proof. destruct (run_extends ops w) as (_ & _ & Ht & _). apply Ht. Qed.

(** X10: the frame-end listener is never cleared and [workerId] never
    changes.  So once a frame was requested, a frame-end signal addressed
    to the proxy is, at any later time, consumed by the listener: nothing is
    applied, queued or posted. *)
Theorem frame_end_is_consumed_ever_after (ops : list (Op glstate))
    (w : World glstate) (m : Message) :
  is_Some (frameEndListener (proxy w)) →
  strict_eq (m_workerId m) (this_workerId (proxy w)) = true →
  truthy (m_isFrameEnd m) = true →
  let w' := run ops w in
  ∃ l, frameEndListener (proxy w') = Some l ∧
       onMessage m w' = resolve l w'.
Proof.
  intros Hl Hs Hf. cbv zeta.
  destruct (run_extends ops w) as (Hid & _ & _ & _ & _ & _ & _ & Hk).
  destruct (Hk Hl) as [l Hl']. exists l. split; [assumption |].
  apply onMessage_frameEnd; auto. now rewrite Hid.
Qed.

(** ** Batches, arguments and replies *)

Lemma forOf_requests_run (l : list Request) (w : World glstate) :
  Forall returns l →
  forOf l (fun r => bind (executeOneCommand r) (fun _ => ret tt)) w =
    (Ret tt, run (map (ExecuteOneCommand glstate) l) w).
Proof.
  intros H. revert w. induction H as [|r l Hr _ IH]; intros w; simpl.
  - reflexivity.
  - unfold bind at 1. unfold bind at 1.
    destruct (executeOneCommand_returns gl_member gl_apply r w Hr) as [v Hv].
    destruct (executeOneCommand r w) as [[v'|e] w1]; simpl in *;
      [apply IH | discriminate].
Qed.



Lemma executeOneCommand_log_resolved (r : Request) :
  preserves glstate log_resolved (executeOneCommand r).
Proof.
  intros w Hw. destruct (m_args r) as [a|] eqn:Ha.
  - destruct (reaches_gl r) eqn:Hr.
    + pose proof (executeOneCommand_applied gl_member gl_apply r a w Ha Hr)
        as H.
      cbv zeta in H. unfold log_resolved in *.
      destruct (gl_outcome (ToString (m_name r)) _ _) as [[h|e] g];
        rewrite H; simpl; apply Forall_app; split; auto;
        apply Forall_singleton; intros reg; apply resolveArgs_idempotent.
    + now rewrite (executeOneCommand_skipped gl_member gl_apply r a w Ha Hr).
  - now rewrite (executeOneCommand_no_args gl_member gl_apply r w Ha).
Qed.

Lemma log_resolved_view (w w' : World glstate) :
  sticky_view glstate w' = sticky_view glstate w →
  log_resolved w → log_resolved w'.
Proof. unfold sticky_view, log_resolved. intros [= _ _ ->]. auto. Qed.

(** X13: a remembered request is replayed with the arguments it was first
    applied with.  On a proxy reached by any run, every request that
    [getFrameCommands] would queue has arguments in which the handles are
    already replaced by the objects they stood for; executing it again, in
    any later world and whatever the registry holds by then, applies the
    operation to exactly these arguments. *)
Theorem remembered_request_keeps_its_arguments (g : glstate)
    (workerId : value) (ops : list (Op glstate)) (r : Request)
    (w' : World glstate) :
  let w := run ops (initial g workerId) in
  In r (seeds (proxy w)) →
  ∃ a, m_args r = Some a ∧ reaches_gl r = true ∧
       applied (snd (executeOneCommand r w')) =
         applied w' ++
         [{| ap_request := r; ap_args := a;
             ap_result := fst (gl_outcome (ToString (m_name r)) a (gl w')) |}].
Proof.
  cbv zeta. set (w := run ops (initial g workerId)). intros Hr.
  assert (sticky_inv glstate w) as Hs
    by apply run_sticky_inv, sticky_inv_initial.
  assert (log_wf glstate gl_member w) as Hl
    by apply run_log_wf, log_wf_initial.
  assert (log_resolved w) as Hres.
  { apply (run_preserves gl_member gl_apply log_resolved log_resolved_view
             executeOneCommand_log_resolved).
    apply Forall_nil_2. }
  pose proof (seeds_executed w r Hs Hr) as Hex.
  pose proof (executed_reaches gl_member w r Hl Hex) as Hreach.
  unfold executed in Hex. apply in_map_iff in Hex as (e & <- & He).
  unfold log_resolved in Hres. rewrite Forall_forall in Hres.
  specialize (Hres e (proj2 (list_elem_of_In _ _) He)).
  exists (ap_args e). split; [reflexivity |]. split; [assumption |].
  pose proof (executeOneCommand_applied gl_member gl_apply (ap_message e)
                (ap_args e) w' eq_refl Hreach) as H.
  cbv zeta in H. rewrite (Hres (uncloneables (proxy w'))) in H.
  destruct (gl_outcome (ToString (m_name (ap_message e))) _ _)
    as [[h|x] g']; rewrite H; reflexivity.
Qed.

(** X14: [onMessage] posts at most one message, a reply that carries the id
    of the message it received, and it posts it exactly when the message is
    accepted, the proxy is not buffering, the execution returned and the
    message has a truthy [wantsResponse]. *)
Theorem reply_is_posted_exactly_when_asked (m : Message)
    (w : World glstate) :
  if accepts (proxy w) m && negb (buffering (proxy w)) &&
     is_ret (fst (executeCommand m w)) && truthy (m_wantsResponse m)
  then ∃ result,
         posted (snd (onMessage m w)) = posted w ++ [PReply (m_id m) result]
  else posted (snd (onMessage m w)) = posted w.
Proof.
  destruct (accepts (proxy w) m) eqn:Ha; simpl.
  - destruct (buffering (proxy w)) eqn:Hb; simpl.
    + now rewrite (onMessage_buffers gl_member gl_apply m w Ha Hb).
    + rewrite (onMessage_executes gl_member gl_apply m w Ha Hb).
      unfold bind.
      pose proof (executeCommand_posted gl_member gl_apply m w) as Hp.
      destruct (executeCommand m w) as [[v|e] w1]; simpl in *;
        [| assumption].
      destruct (truthy (m_wantsResponse m)); simpl; rewrite Hp; eauto.
  - unfold accepts in Ha.
    destruct (strict_eq (m_workerId m) (this_workerId (proxy w))) eqn:Hs.
    + simpl in Ha. apply negb_false_iff, andb_true_iff in Ha as [Hl Hf].
      apply bool_decide_eq_true in Hl as [l Hl].
      now rewrite (onMessage_frameEnd gl_member gl_apply m w l Hs Hl Hf).
    + now rewrite (onMessage_foreign gl_member gl_apply m w Hs).
Qed.

End ProxyBehaviour.

(** * Properties of the worker script *)

Section WorkerBehaviour.

Import GlWorkerScript.

Lemma pending_key_elem (st : GlWorker.State) (n : Z) :
  n ∈ GlWorker.pending st → pending_key st (pretty n) = Some n.
Proof.
  intros Hn. unfold pending_key.
  destruct (List.find _ _) as [k|] eqn:E.
  - apply find_some in E as [_ Hk]. apply String.eqb_eq in Hk.
    f_equal. now apply (inj pretty).
  - assert (In n (elements (GlWorker.pending st))) as Hin
      by now apply list_elem_of_In, elem_of_elements.
    pose proof (find_none _ _ E n Hin) as H. simpl in H.
    now rewrite String.eqb_refl in H.
Qed.

Lemma pending_key_none (st : GlWorker.State) (key : string) :
  (∀ n, n ∈ GlWorker.pending st → pretty n ≠ key) →
  pending_key st key = None.
Proof.
  intros H. unfold pending_key.
  destruct (List.find _ _) as [k|] eqn:E; [| reflexivity].
  apply find_some in E as [Hin Hk]. apply String.eqb_eq in Hk.
  exfalso. apply (H k); [| assumption].
  apply elem_of_elements, list_elem_of_In, Hin.
Qed.

Lemma pretty_N_go_not_undefined (x : N) (s : string) :
  s ≠ "undefined" → pretty_N_go x s ≠ "undefined".
Proof.
  revert s. induction (N.lt_wf_0 x) as [x _ IH]; intros s Hs.
  assert (x = 0 ∨ 0 < x)%N as [->|Hx] by lia.
  - now rewrite pretty_N_go_0.
  - rewrite pretty_N_go_step by assumption. apply IH.
    + now apply N.div_lt.
    + unfold pretty_N_char. repeat case_match; discriminate.
Qed.

Lemma pretty_Z_not_undefined (n : Z) : pretty n ≠ "undefined".
Proof.
  assert (∀ x : N, pretty x ≠ "undefined") as HN.
  { intros x. unfold pretty, pretty_N. case_decide; [discriminate |].
    now apply pretty_N_go_not_undefined. }
  destruct n as [|x|x]; unfold pretty, pretty_Z; [discriminate | apply HN |].
  discriminate.
Qed.

(** ** Stub calls *)

Lemma messages_from_cons (base : Z) (call : string * list value)
    (calls : list (string * list value)) :
  messages_from base (call :: calls) =
    call_message base call :: messages_from (base + 1) calls.
Proof.
  unfold messages_from. simpl. f_equal.
  - f_equal. lia.
  - apply imap_ext. intros k c _. simpl. f_equal. lia.
Qed.

Lemma messages_from_ids (base : Z) (calls : list (string * list value))
    (m : Message) :
  In m (messages_from base calls) → ∃ k, m_id m = PNum k ∧ (base ≤ k)%Z.
Proof.
  revert base. induction calls as [|c calls IH]; intros base.
  - intros [].
  - rewrite messages_from_cons. intros [<-|Hin].
    + exists base. split; [reflexivity | lia].
    + destruct (IH _ Hin) as (k & Hk & Hle). exists k. split; [easy | lia].
Qed.

Lemma messages_from_NoDup (base : Z) (calls : list (string * list value)) :
  NoDup (map (fun m : Message => m_id m) (messages_from base calls)).
Proof.
  revert base. induction calls as [|c calls IH]; intros base.
  - apply NoDup_nil_2.
  - rewrite messages_from_cons. simpl. apply NoDup_cons. split; [| apply IH].
    rewrite list_elem_of_In, in_map_iff. intros (m & Hid & Hin).
    destruct (messages_from_ids _ _ _ Hin) as (k & Hk & Hle).
    rewrite Hk in Hid. injection Hid as ->. lia.
Qed.

Lemma invoke_all_stubs (calls : list (string * list value)) (s : Script) :
  stubs_for calls s →
  let s' := snd (invoke_all calls s) in
  let base := GlWorker.id (vars s) in
  fst (invoke_all calls s) = Ret tt ∧
  sent s' = sent s ++ messages_from base calls ∧
  GlWorker.id (vars s') = (base + Z.of_nat (length calls))%Z ∧
  (∀ n, n ∈ GlWorker.pending (vars s') ↔
        n ∈ GlWorker.pending (vars s) ∨
        (base ≤ n < base + Z.of_nat (length calls))%Z) ∧
  gl s' = gl s ∧ settled s' = settled s.
Proof.
  cbv zeta. revert s. induction calls as [|[name arguments] calls IH];
    intros s H.
  - simpl. rewrite app_nil_r. repeat split; auto; try lia.
    intros [?|?]; [assumption | lia].
  - inversion H as [|c cs Hc Hcs]; subst. simpl in Hc.
    simpl. unfold invoke. rewrite Hc. simpl.
    match goal with |- context [invoke_all calls ?s1] =>
      destruct (IH s1 Hcs) as (Hr & Hs & Hid & Hpen & Hgl & Hset)
    end.
    simpl in *. rewrite Hr, Hs, Hid, Hgl, Hset.
    rewrite messages_from_cons, <- app_assoc.
    split; [reflexivity |]. split; [reflexivity |]. split; [lia |].
    split; [| auto].
    intros n. rewrite Hpen, elem_of_union, elem_of_singleton.
    intuition lia.
Qed.


(** ** Tables *)

Lemma fold_set_gl {A} (key_of : A → string) (entry_of : A → Entry)
    (l : list A) (s : Script) :
  let s' := fold_left (fun s x => set_gl (key_of x) (entry_of x) s) l s in
  vars s' = vars s ∧ settled s' = settled s ∧ sent s' = sent s ∧
  ∀ key, gl s' !! key =
         match last_where (fun x => String.eqb (key_of x) key) l with
         | Some x => Some (entry_of x)
         | None => gl s !! key
         end.
Proof.
  cbv zeta. revert s. induction l as [|x l IH]; intros s; simpl.
  - auto.
  - destruct (IH (set_gl (key_of x) (entry_of x) s)) as (Hv & Hs & Hp & Hg).
    simpl in *. rewrite Hv, Hs, Hp. repeat split. intros key. rewrite Hg.
    destruct (last_where _ l); [reflexivity |].
    destruct (String.eqb (key_of x) key) eqn:E.
    + apply String.eqb_eq in E as <-. apply lookup_insert_eq.
    + apply String.eqb_neq in E. now apply lookup_insert_ne.
Qed.

Lemma last_where_key (key : string) (l : list string) :
  last_where (fun x => String.eqb x key) l =
    if bool_decide (key ∈ l) then Some key else None.
Proof.
  induction l as [|x l IH]; simpl; [reflexivity |].
  rewrite IH. destruct (bool_decide (key ∈ l)) eqn:E.
  - apply bool_decide_eq_true in E. rewrite bool_decide_true; [easy |].
    now apply list_elem_of_further.
  - apply bool_decide_eq_false in E.
    destruct (String.eqb x key) eqn:Ex.
    + apply String.eqb_eq in Ex as ->. rewrite bool_decide_true; [easy |].
      apply list_elem_of_here.
    + apply String.eqb_neq in Ex. rewrite bool_decide_false; [easy |].
      rewrite elem_of_cons. intros [->|?]; auto.
Qed.

Lemma obj_get_notin {A} (key : string) (o : list (string * A)) :
  key ∉ map fst o → obj_get key o = None.
Proof.
  induction o as [|[k x] o IH]; simpl; intros H; [reflexivity |].
  rewrite not_elem_of_cons in H. destruct H as [Hk Ho].
  destruct (String.eqb k key) eqn:E; [| auto].
  apply String.eqb_eq in E. congruence.
Qed.

Lemma last_where_obj_get {A} (key : string) (o : list (string * A)) :
  NoDup (map fst o) →
  last_where (fun c => String.eqb (fst c) key) o =
    match obj_get key o with Some v => Some (key, v) | None => None end.
Proof.
  induction o as [|[k x] o IH]; simpl; intros H; [reflexivity |].
  apply NoDup_cons in H as [Hk Ho]. rewrite (IH Ho).
  destruct (String.eqb k key) eqn:E.
  - apply String.eqb_eq in E as ->. now rewrite (obj_get_notin key o Hk).
  - now destruct (obj_get key o).
Qed.

Lemma discover_fold (properties : list (string * value))
    (fs0 : list string) (cs0 : list (string * value)) :
  NoDup (map fst properties) →
  let acc :=
    fold_left
      (fun acc kv =>
         match typeof (snd kv) with
         | TFunction => (fst acc ++ [fst kv], snd acc)
         | TNumber => (fst acc, obj_set (fst kv) (snd kv) (snd acc))
         | _ => acc
         end)
      properties (fs0, cs0) in
  (∀ key, key ∈ fst acc ↔
          key ∈ fs0 ∨
          ∃ v, obj_get key properties = Some v ∧ typeof v = TFunction) ∧
  (∀ key, obj_get key (snd acc) =
          match obj_get key properties with
          | Some v => match typeof v with
                      | TNumber => Some v
                      | _ => obj_get key cs0
                      end
          | None => obj_get key cs0
          end) ∧
  (NoDup (map fst cs0) → NoDup (map fst (snd acc))).
Proof.
  cbv zeta. revert fs0 cs0.
  induction properties as [|[k v] properties IH]; intros fs0 cs0 Hnd.
  - simpl. split; [| auto]. intros key. split; [auto |].
    intros [?|(v & Hv & _)]; [assumption | discriminate].
  - apply NoDup_cons in Hnd as [Hk Hnd]. simpl fold_left.
    match goal with |- context [fold_left _ properties ?acc1] =>
      destruct (IH (fst acc1) (snd acc1) Hnd) as (Hf & Hc & Hn);
      replace (fst acc1, snd acc1) with acc1 in * by (now destruct acc1)
    end.
    simpl fst in *. simpl snd in *.
    split; [| split].
    + intros key. rewrite Hf. simpl obj_get.
      destruct (String.eqb k key) eqn:E.
      * apply String.eqb_eq in E as ->.
        rewrite (obj_get_notin key properties Hk).
        destruct (typeof v) eqn:Ht; simpl;
          rewrite ?elem_of_app, ?list_elem_of_singleton;
          (split;
           [intros [H|(x & Hx & _)]; [| discriminate]
           |intros [H|(x & Hx & Ht')];
            [| injection Hx as <-; try congruence]]);
          try tauto;
          try (right; eexists; split; [reflexivity | assumption]);
          try (left; right; reflexivity).
      * apply String.eqb_neq in E.
        destruct (typeof v); simpl;
          rewrite ?elem_of_app, ?list_elem_of_singleton; intuition congruence.
    + intros key. rewrite Hc. simpl obj_get.
      destruct (String.eqb k key) eqn:E.
      * apply String.eqb_eq in E as ->.
        rewrite (obj_get_notin key properties Hk).
        destruct (typeof v); simpl; try reflexivity.
        now rewrite obj_get_obj_set, String.eqb_refl.
      * destruct (typeof v) eqn:Ht; simpl; try reflexivity.
        rewrite obj_get_obj_set, E. reflexivity.
    + intros H0. apply Hn. destruct (typeof v); simpl; auto.
      now apply obj_set_NoDup.
Qed.

(** ** The listener *)

Section ListenerBehaviour.

Variable main : Script → outcome unit * Script.
Variable render : value → Script → outcome unit * Script.

(** X16: a reply whose id is that of a pending call resolves the promise
    of the call with the reply's result and removes the call from
    [pending]; nothing is posted.  A second reply with the same id then
    changes nothing: a call is resolved at most once. *)
Theorem reply_settles_its_call_once (m : Inbound) (n : Z) (s : Script) :
  n ∈ GlWorker.pending (vars s) →
  ToString (in_id m) = pretty n →
  strict_eq (in_name m) (PStr "bootstrap") = false →
  strict_eq (in_name m) (PStr "frame") = false →
  let s' := settle n (in_result m) s in
  listener main render m s = (Ret tt, s') ∧
  listener main render m s' = (Ret tt, s').
Proof.
  intros Hn Hid Hb Hf. cbv zeta. unfold listener. rewrite Hb, Hf, Hid.
  rewrite (pending_key_elem _ n Hn). split; [reflexivity |].
  rewrite pending_key_none; [reflexivity |].
  simpl. intros k Hk Heq. apply (inj pretty) in Heq.
  apply elem_of_difference in Hk as [_ Hk]. apply Hk.
  now apply elem_of_singleton.
Qed.

(** X17: a message that is neither the bootstrap nor a frame and whose id
    is not that of a pending call (a reply to a call that was never made or
    is already resolved, a message without id) is ignored: the module state
    is what it was and nothing is posted. *)
Theorem unexpected_reply_is_ignored (m : Inbound) (s : Script) :
  (∀ n, n ∈ GlWorker.pending (vars s) → pretty n ≠ ToString (in_id m)) →
  strict_eq (in_name m) (PStr "bootstrap") = false →
  strict_eq (in_name m) (PStr "frame") = false →
  listener main render m s = (Ret tt, s).
Proof.
  intros Hid Hb Hf. unfold listener. rewrite Hb, Hf.
  now rewrite (pending_key_none _ _ Hid).
Qed.

(** X18: on the frame message of the proxy the listener resolves no call,
    runs [render] with the time of the message and then posts the frame-end
    signal, after everything [render] posted.  When [render] throws, the
    frame-end signal is not posted. *)
Theorem frame_end_is_posted_after_render (now : Z) (s : Script) :
  let '(out, s1) := render (PNum now) s in
  listener main render (inbound (PFrame now)) s =
    match out with
    | Ret _ => (Ret tt, post GlWorker.frameEnd s1)
    | Throw e => (Throw e, s1)
    end ∧
  sent (snd (listener main render (inbound (PFrame now)) s)) =
    sent s1 ++ (if is_ret out then [GlWorker.frameEnd] else []).
Proof.
  unfold listener. simpl.
  rewrite pending_key_none by (intros n _; apply pretty_Z_not_undefined).
  destruct (render (PNum now) s) as [[[]|e] s1]; simpl;
    rewrite ?app_nil_r; auto.
Qed.

Lemma listener_bootstrap (functions : list string)
    (constants : list (string * value)) (s : Script) :
  ∃ s', listener main render (bootstrap functions constants) s = main s' ∧
        vars s' = vars s ∧ settled s' = settled s ∧ sent s' = sent s ∧
        ∀ key, gl s' !! key =
               match last_where (fun c => String.eqb (fst c) key) constants
               with
               | Some c => Some (Constant (snd c))
               | None => if bool_decide (key ∈ functions)
                         then Some (Stub key) else gl s !! key
               end.
Proof.
  unfold listener. simpl. eexists. split; [reflexivity |].
  destruct (fold_set_gl (fun f : string => f) Stub functions s)
    as (Hv & Hs & Hp & Hg).
  match goal with |- context [fold_left _ constants ?s1] =>
    destruct (fold_set_gl fst (fun c => Constant (snd c)) constants s1)
      as (Hv' & Hs' & Hp' & Hg')
  end.
  cbv zeta in *. rewrite Hv', Hs', Hp', Hv, Hs, Hp. repeat split.
  intros key. rewrite Hg', Hg, last_where_key.
  destruct (last_where _ constants); [reflexivity |].
  now destruct (bool_decide (key ∈ functions)).
Qed.

(** X19: the bootstrap message makes [gl[f]] the stub of [f] for every
    listed function and then [gl[c]] the listed value for every constant,
    a constant replacing a stub of the same name and a later value an
    earlier one; the other entries of [gl] stay.  It then starts [main] and
    does nothing else: no call is resolved and nothing is posted by the
    listener itself. *)
Theorem bootstrap_fills_gl (functions : list string)
    (constants : list (string * value)) (s : Script) :
  ∃ s', listener main render (bootstrap functions constants) s = main s' ∧
        vars s' = vars s ∧ settled s' = settled s ∧ sent s' = sent s ∧
        ∀ key, gl s' !! key =
               match last_where (fun c => String.eqb (fst c) key) constants
               with
               | Some c => Some (Constant (snd c))
               | None => if bool_decide (key ∈ functions)
                         then Some (Stub key) else gl s !! key
               end.
Proof. apply listener_bootstrap. Qed.

(** X20: what discovery and bootstrap give the worker.  When the owner page
    enumerates the properties of its context (each key once) and the worker
    starts from an empty [gl] and receives the bootstrap message built from
    the result, [main] is started with a [gl] that has the stub of [key]
    for every property that is a function, the value for every property
    that is a number, and nothing for any other key. *)
Theorem bootstrap_mirrors_the_context (properties : list (string * value))
    (s : Script) :
  NoDup (map fst properties) → gl s = ∅ →
  ∃ s', listener main render
          (bootstrap (fst (discover properties)) (snd (discover properties)))
          s = main s' ∧
        vars s' = vars s ∧ settled s' = settled s ∧ sent s' = sent s ∧
        ∀ key, gl s' !! key =
               match obj_get key properties with
               | Some v => match typeof v with
                           | TFunction => Some (Stub key)
                           | TNumber => Some (Constant v)
                           | _ => None
                           end
               | None => None
               end.
Proof.
  intros Hnd Hgl.
  destruct (listener_bootstrap (fst (discover properties))
              (snd (discover properties)) s)
    as (s' & Hl & Hv & Hs & Hp & Hg).
  exists s'. split; [assumption |]. repeat split; try assumption.
  intros key. rewrite Hg, Hgl, lookup_empty.
  destruct (discover_fold properties [] [] Hnd) as (Hf & Hc & Hn).
  fold (discover properties) in Hf, Hc, Hn.
  rewrite (last_where_obj_get key _ (Hn (NoDup_nil_2 (A := string)))), Hc. simpl.
  destruct (obj_get key properties) as [v|] eqn:Hget.
  - destruct (typeof v) eqn:Ht; simpl; try reflexivity;
      try (rewrite bool_decide_false; [reflexivity |];
           rewrite Hf, Hget; intros [H|(x & [= <-] & Hx)];
           [now apply not_elem_of_nil in H | congruence]).
    rewrite bool_decide_true; [reflexivity |]. apply Hf. eauto.
  - rewrite bool_decide_false; [reflexivity |].
    rewrite Hf, Hget. intros [H|(x & Hx & _)];
      [now apply not_elem_of_nil in H | discriminate].
Qed.

End ListenerBehaviour.

End WorkerBehaviour.

(** * A frame, from the proxy to the worker and back *)

Section FrameRoundTrip.

Context {glstate : Type}.
Variable gl_member : string → member.
Variable gl_apply : string → list value → glstate → outcome hostval * glstate.

Abbreviation onMessage := (onMessage glstate gl_member gl_apply).
Abbreviation dispatch := (dispatch glstate gl_member gl_apply).
Abbreviation getFrameCommands := (getFrameCommands glstate).

Lemma dispatch_accepted (ms : list Message) (w : World glstate) :
  buffering (proxy w) = true →
  Forall (fun m => accepts (proxy w) m = true) ms →
  dispatch ms w =
    {| proxy := set_commandBuffer (commandBuffer (proxy w) ++ ms) (proxy w);
       gl := gl w; applied := applied w; posted := posted w;
       resolved := resolved w; promises := promises w |}.
Proof.
  revert w. induction ms as [|m ms IH]; intros w Hb H; simpl.
  - rewrite app_nil_r, set_commandBuffer_same. now destruct w.
  - inversion H as [|m' ms' Hm Hms]; subst.
    rewrite (onMessage_buffers gl_member gl_apply m w Hm Hb).
    specialize (IH (snd (push glstate m w)) Hb Hms).
    unfold dispatch in *. rewrite IH. simpl. now rewrite <- app_assoc.
Qed.

Lemma dispatch_app (ms ms' : list Message) (w : World glstate) :
  dispatch (ms ++ ms') w = dispatch ms' (dispatch ms w).
Proof. apply fold_left_app. Qed.

Lemma stub_messages_accepted (p : Proxy) (base : Z)
    (calls : list (string * list value)) :
  this_workerId p = VUndefined →
  Forall (fun m => accepts p m = true)
    (GlWorkerScript.messages_from base calls).
Proof.
  intros Hp. apply Forall_forall. intros m Hm.
  unfold GlWorkerScript.messages_from in Hm.
  apply elem_of_lookup_imap in Hm as (k & c & -> & _).
  unfold accepts. rewrite Hp. simpl. now rewrite andb_false_r.
Qed.


End FrameRoundTrip.

(** * Properties of the frame cycle *)

Section PageBehaviour.

Context {glstate : Type}.
Variable gl_member : string → member.
Variable gl_apply : string → list value → glstate → outcome hostval * glstate.
Variable gl_constant : string → Z.
Variable performance_now : nat → Z.
Variable Date_now : nat → Z.

Abbreviation onMessage := (onMessage glstate gl_member gl_apply).
Abbreviation executeFrameCommands :=
  (executeFrameCommands glstate gl_member gl_apply).
Abbreviation getFrameCommands := (getFrameCommands glstate).
Abbreviation deliver := (deliver glstate gl_member gl_apply).
Abbreviation renderFrame_begin :=
  (renderFrame_begin glstate performance_now Date_now).
Abbreviation renderFrame_finish :=
  (renderFrame_finish glstate gl_member gl_apply gl_constant performance_now).
Abbreviation flush_views := (flush_views gl_member).
Abbreviation reset_views := (reset_views gl_constant).
Abbreviation method_returns := (method_returns glstate gl_member gl_apply).
Abbreviation queue_returns := (queue_returns glstate gl_member gl_apply).

(** ** Collecting *)

Lemma on_proxy_onMessage_buffering (i : nat) (p : Proxy) (m : Message)
    (pg : Page glstate) :
  proxies pg !! i = Some p → buffering p = true →
  let pg' := snd (on_proxy i (onMessage m) pg) in
  page_log pg' = page_log pg ∧ page_gl pg' = page_gl pg ∧
  page_posted pg' = page_posted pg ∧
  ∃ p', proxies pg' = <[i := p']> (proxies pg) ∧ buffering p' = true.
Proof.
  intros Hi Hb. cbv zeta. unfold on_proxy. rewrite Hi.
  destruct (dispatch_buffering gl_member gl_apply [m] (world_of p pg) Hb)
    as (Hp & Hg & Ha & Hpo).
  simpl in Hp, Hg, Ha, Hpo.
  destruct (onMessage m (world_of p pg)) as [out w]. simpl in *.
  rewrite Hg, Ha, Hpo. simpl. rewrite !app_nil_r.
  repeat split. eexists. split; [reflexivity |]. now rewrite Hp.
Qed.

Lemma deliver_buffering (pg : Page glstate) (m : Message) :
  Forall (fun p => buffering p = true) (proxies pg) →
  page_log (deliver pg m) = page_log pg ∧
  page_gl (deliver pg m) = page_gl pg ∧
  page_posted (deliver pg m) = page_posted pg ∧
  length (proxies (deliver pg m)) = length (proxies pg) ∧
  Forall (fun p => buffering p = true) (proxies (deliver pg m)).
Proof.
  unfold deliver. generalize (seq 0 (length (proxies pg))).
  intros l. revert pg. induction l as [|i l IH]; intros pg H; simpl.
  - auto.
  - destruct (proxies pg !! i) as [p|] eqn:Hi.
    + assert (buffering p = true) as Hb.
      { rewrite Forall_forall in H. apply H.
        now apply list_elem_of_lookup_2 in Hi. }
      destruct (on_proxy_onMessage_buffering i p m pg Hi Hb)
        as (H1 & H2 & H3 & p' & H4 & H5).
      match goal with |- context [fold_left _ l ?pg1] =>
        destruct (IH pg1) as (I1 & I2 & I3 & I4 & I5)
      end.
      { rewrite H4. now apply Forall_insert. }
      rewrite I1, I2, I3, I4, H1, H2, H3, H4, length_insert. auto.
    + assert (snd (on_proxy i (onMessage m) pg) = pg) as ->
        by (unfold on_proxy; now rewrite Hi).
      now apply IH.
Qed.

(** X22: while every proxy is buffering, as after the first segment of
    [renderFrame], the message events of the window apply nothing to the
    shared context and post nothing, whichever proxies they are addressed
    to and in whatever order they arrive; every proxy stays buffering. *)
Theorem nothing_is_applied_while_collecting (ms : list Message)
    (pg : Page glstate) :
  Forall (fun p => buffering p = true) (proxies pg) →
  let pg' := fold_left deliver ms pg in
  page_log pg' = page_log pg ∧ page_gl pg' = page_gl pg ∧
  page_posted pg' = page_posted pg ∧
  length (proxies pg') = length (proxies pg) ∧
  Forall (fun p => buffering p = true) (proxies pg').
Proof.
  cbv zeta. revert pg. induction ms as [|m ms IH]; intros pg H; simpl.
  - auto.
  - destruct (deliver_buffering pg m H) as (H1 & H2 & H3 & H4 & H5).
    destruct (IH _ H5) as (I1 & I2 & I3 & I4 & I5).
    rewrite I1, I2, I3, I4. auto.
Qed.

(** ** Asking for a frame *)

Lemma pbind_ret {A B} (m : P glstate A) (k : A → P glstate B)
    (pg pg' : Page glstate) (a : A) :
  m pg = (Ret a, pg') → pbind glstate m k pg = k a pg'.
Proof. intros H. unfold pbind. now rewrite H. Qed.

Lemma drop_cons_inv {A} (k : nat) (l : list A) (x : A) (rest : list A) :
  drop k l = x :: rest → l !! k = Some x ∧ drop (S k) l = rest.
Proof.
  intros H. split.
  - pose proof (lookup_drop l k 0) as E. rewrite Nat.add_0_r in E.
    rewrite <- E, H. reflexivity.
  - replace (S k) with (k + 1)%nat by lia.
    rewrite <- drop_drop, H. reflexivity.
Qed.

Lemma on_proxy_getFrameCommands (i : nat) (p : Proxy) (now : Z)
    (pg : Page glstate) :
  proxies pg !! i = Some p →
  on_proxy i (getFrameCommands now) pg =
    (Ret (page_promises pg),
     {| proxies :=
          <[i := set_frameEndListener (Some (page_promises pg))
                   (set_commandBuffer
                      (commandBuffer p ++ map single (seeds p))
                      (set_buffering true p))]> (proxies pg);
        page_gl := page_gl pg;
        page_log := page_log pg;
        page_posted := page_posted pg ++ [(i, PFrame now)];
        page_resolved := page_resolved pg;
        page_promises := S (page_promises pg);
        timings := timings pg;
        readings := readings pg;
        animation_frames := animation_frames pg |}).
Proof.
  intros Hi. unfold on_proxy. rewrite Hi, getFrameCommands_spec. simpl.
  now rewrite app_nil_r.
Qed.

Lemma ask_one (i : nat) (p : Proxy) (pg : Page glstate) :
  proxies pg !! i = Some p →
  pbind glstate (read glstate Date_now)
    (fun time => on_proxy i (getFrameCommands time)) pg =
    (Ret (page_promises pg),
     {| proxies :=
          <[i := set_frameEndListener (Some (page_promises pg))
                   (set_commandBuffer
                      (commandBuffer p ++ map single (seeds p))
                      (set_buffering true p))]> (proxies pg);
        page_gl := page_gl pg;
        page_log := page_log pg;
        page_posted :=
          page_posted pg ++ [(i, PFrame (Date_now (readings pg)))];
        page_resolved := page_resolved pg;
        page_promises := S (page_promises pg);
        timings := timings pg;
        readings := S (readings pg);
        animation_frames := animation_frames pg |}).
Proof.
  intros Hi. unfold pbind, read.
  rewrite (on_proxy_getFrameCommands i p) by exact Hi. reflexivity.
Qed.

Lemma ask_loop (rest : list Proxy) (k : nat) (pg : Page glstate) :
  drop k (proxies pg) = rest →
  let r :=
    pmap glstate (seq k (length rest))
      (fun i =>
         pbind glstate (read glstate Date_now)
           (fun time => on_proxy i (getFrameCommands time))) pg in
  fst r = Ret (seq (page_promises pg) (length rest)) ∧
  proxies (snd r) =
    take k (proxies pg) ++
    imap (fun i p =>
            set_frameEndListener (Some (page_promises pg + i)%nat)
              (set_commandBuffer (commandBuffer p ++ map single (seeds p))
                 (set_buffering true p))) rest ∧
  page_posted (snd r) =
    page_posted pg ++
    imap (fun i _ => ((k + i)%nat, PFrame (Date_now (readings pg + i)%nat)))
      rest ∧
  page_log (snd r) = page_log pg ∧ page_gl (snd r) = page_gl pg ∧
  page_resolved (snd r) = page_resolved pg ∧
  page_promises (snd r) = (page_promises pg + length rest)%nat ∧
  readings (snd r) = (readings pg + length rest)%nat ∧
  animation_frames (snd r) = animation_frames pg.
Proof.
  cbv zeta. revert k pg.
  induction rest as [|p rest IH]; intros k pg Hd; simpl.
  - rewrite !app_nil_r, !Nat.add_0_r.
    assert (length (proxies pg) ≤ k)%nat as Hlen.
    { assert (length (drop k (proxies pg)) = 0%nat) as H by now rewrite Hd.
      rewrite length_drop in H. lia. }
    rewrite take_ge by exact Hlen. repeat split; reflexivity.
  - apply drop_cons_inv in Hd as [Hk Hd].
    rewrite (pbind_ret _ _ _ _ _ (ask_one k p pg Hk)).
    match goal with
    | |- context [pbind _ (pmap _ _ ?f) _ ?pg1] =>
        destruct (IH (S k) pg1) as (I1 & I2 & I3 & I4 & I5 & I6 & I7 & I8 & I9);
        [cbn [proxies]; rewrite drop_insert_lt by lia; exact Hd |];
        destruct (pmap glstate (seq (S k) (length rest)) f pg1)
          as [out pg2] eqn:E
    end.
    simpl in I1, I2, I3, I4, I5, I6, I7, I8, I9. subst out.
    rewrite (pbind_ret _ _ _ _ _ E). unfold pret. simpl.
    split; [reflexivity |].
    split.
    { rewrite I2. rewrite (take_S_r _ _ _ (list_lookup_insert_eq _ _ _
                                             (lookup_lt_Some _ _ _ Hk))).
      rewrite take_insert_ge by lia. rewrite <- app_assoc. simpl.
      rewrite Nat.add_0_r. do 2 f_equal.
      apply imap_ext. intros j q _. simpl. do 2 f_equal. lia. }
    split.
    { rewrite I3, <- app_assoc. simpl. rewrite !Nat.add_0_r. do 2 f_equal.
      apply imap_ext. intros j q _. simpl. do 2 f_equal; [lia |].
      do 2 f_equal. lia. }
    repeat split; try assumption; lia.
Qed.

(** X23: the first segment of [renderFrame] asks every proxy for its frame,
    in the order of the array, and touches nothing else: every proxy starts
    buffering with its remembered state queued behind what was queued
    already and waits on a promise of its own, the worker of each proxy is
    posted one frame message, and these are the only messages posted;
    nothing is applied to the context.  The promises awaited are the new
    ones, one per proxy. *)
Theorem render_frame_asks_every_worker (pg : Page glstate) :
  let r := renderFrame_begin pg in
  fst r =
    Ret (performance_now (readings pg),
         seq (page_promises pg) (length (proxies pg))) ∧
  proxies (snd r) =
    imap (fun i p =>
            set_frameEndListener (Some (page_promises pg + i)%nat)
              (set_commandBuffer (commandBuffer p ++ map single (seeds p))
                 (set_buffering true p))) (proxies pg) ∧
  page_posted (snd r) =
    page_posted pg ++
    imap (fun i _ => (i, PFrame (Date_now (S (readings pg) + i)%nat)))
      (proxies pg) ∧
  page_log (snd r) = page_log pg ∧ page_gl (snd r) = page_gl pg ∧
  page_resolved (snd r) = page_resolved pg ∧
  animation_frames (snd r) = animation_frames pg.
Proof.
  cbv zeta. unfold renderFrame_begin.
  rewrite (pbind_ret (read glstate performance_now) _ pg _ _ eq_refl).
  rewrite (pbind_ret (indices glstate) _ _ _ _ eq_refl).
  cbn [proxies].
  match goal with
  | |- context [pbind _ (pmap _ _ ?f) _ ?pg1] =>
      destruct (ask_loop (proxies pg) 0 pg1 eq_refl)
        as (I1 & I2 & I3 & I4 & I5 & I6 & I7 & I8 & I9);
      destruct (pmap glstate (seq 0 (length (proxies pg))) f pg1)
        as [out pg2] eqn:E
  end.
  simpl in I1, I2, I3, I4, I5, I6, I7, I8, I9. subst out.
  rewrite (pbind_ret _ _ _ _ _ E). unfold pret. simpl.
  repeat split; assumption.
Qed.

(** ** Flushing *)

Lemma view_by_proxy (i : nat) (l : list Applied) :
  map view (map (ByProxy i) l) = map (ViewProxy i) (map ap_request l).
Proof. rewrite !map_map. reflexivity. Qed.

Lemma on_proxy_flush (i : nat) (p : Proxy) (pg : Page glstate) :
  proxies pg !! i = Some p → queue_returns p →
  let r := on_proxy i executeFrameCommands pg in
  fst r = Ret tt ∧
  map view (page_log (snd r)) =
    map view (page_log pg) ++
    map (ViewProxy i)
      (List.filter (reaches_gl gl_member)
         (flat_map requests_of (commandBuffer p))) ∧
  (∃ p', proxies (snd r) = <[i := p']> (proxies pg) ∧
         commandBuffer p' = [] ∧ buffering p' = false) ∧
  animation_frames (snd r) = animation_frames pg ∧
  page_posted (snd r) = page_posted pg.
Proof.
  intros Hi Hq. cbv zeta. unfold on_proxy. rewrite Hi.
  pose proof (executeFrameCommands_returns gl_member gl_apply
                (world_of p pg) Hq) as Hr.
  destruct (executeFrameCommands_spec gl_member gl_apply (world_of p pg))
    as (d & Hlog & _ & Hret & Hbuf & Hpo).
  destruct (executeFrameCommands (world_of p pg)) as [out w]. simpl in *.
  destruct (Hret Hr) as [-> Hempty].
  rewrite Hpo. simpl. rewrite app_nil_r, map_app, view_by_proxy, Hlog.
  split; [assumption |]. split; [reflexivity |]. split; [| auto].
  eexists. split; [reflexivity |]. auto.
Qed.

Lemma flush_loop (rest : list Proxy) (k : nat) (pg : Page glstate) :
  drop k (proxies pg) = rest → Forall queue_returns rest →
  let r :=
    pforOf glstate (seq k (length rest))
      (fun i => on_proxy i executeFrameCommands) pg in
  fst r = Ret tt ∧
  map view (page_log (snd r)) = map view (page_log pg) ++ flush_views k rest ∧
  length (proxies (snd r)) = length (proxies pg) ∧
  (∀ j, (j < k)%nat → proxies (snd r) !! j = proxies pg !! j) ∧
  (∀ j p, (k ≤ j)%nat → proxies (snd r) !! j = Some p →
          commandBuffer p = [] ∧ buffering p = false) ∧
  animation_frames (snd r) = animation_frames pg ∧
  page_posted (snd r) = page_posted pg.
Proof.
  cbv zeta. revert k pg.
  induction rest as [|p rest IH]; intros k pg Hd Hq; simpl.
  - rewrite app_nil_r. do 4 (split; [reflexivity |]).
    split; [| split; reflexivity].
    intros j q Hj Hl. exfalso.
    apply lookup_lt_Some in Hl.
    assert (length (drop k (proxies pg)) = 0%nat) as Hlen
      by now rewrite Hd.
    rewrite length_drop in Hlen. lia.
  - apply drop_cons_inv in Hd as [Hk Hd].
    apply Forall_cons in Hq as [Hp Hrest].
    destruct (on_proxy_flush k p pg Hk Hp)
      as (Hr & Hlog & (p' & Hps & Hc & Hb) & Haf & Hpo).
    destruct (on_proxy k executeFrameCommands pg) as [out pg1] eqn:E.
    simpl in *. subst out.
    rewrite (pbind_ret _ _ pg pg1 tt E).
    assert (drop (S k) (proxies pg1) = rest) as Hd1.
    { rewrite Hps, drop_insert_lt by lia. exact Hd. }
    destruct (IH (S k) pg1 Hd1 Hrest)
      as (I1 & I2 & I3 & I4 & I5 & I6 & I7).
    split; [assumption |].
    split; [now rewrite I2, Hlog, <- app_assoc |].
    split; [now rewrite I3, Hps, length_insert |].
    split; [| split; [| split; congruence]].
    + intros j Hj. rewrite I4 by lia. rewrite Hps.
      apply list_lookup_insert_ne. lia.
    + intros j q Hj Hl. destruct (decide (j = k)) as [->|Hne].
      * rewrite I4 in Hl by lia. rewrite Hps in Hl.
        rewrite list_lookup_insert_eq in Hl
          by (now apply lookup_lt_Some in Hk).
        injection Hl as <-. auto.
      * apply (I5 j q); [lia | assumption].
Qed.

Lemma gl_direct_returns (name : string) (args : list value)
    (pg : Page glstate) :
  method_returns name →
  ∃ h pg', gl_direct glstate gl_member gl_apply name args pg = (Ret h, pg') ∧
           map view (page_log pg') =
             map view (page_log pg) ++ [ViewDirect name args] ∧
           proxies pg' = proxies pg ∧
           animation_frames pg' = animation_frames pg ∧
           page_posted pg' = page_posted pg.
Proof.
  intros [Hm Hr]. unfold gl_direct. rewrite Hm.
  destruct (Hr args (page_gl pg)) as (h & g' & ->).
  eexists _, _. split; [reflexivity |]. simpl. rewrite map_app. auto.
Qed.


End PageBehaviour.

(** * The extensions on the demo context *)

(** Every method of the page context returns. *)
Lemma scene_returns (r : Request) :
  is_Some (m_args r) →
  Scene.page_member (ToString (m_name r)) ≠ MData →
  returns N Scene.page_member Demo.gl_apply r.
Proof.
  intros Ha Hm. split; [assumption |]. intros Hr. split.
  - unfold reaches_gl in Hr.
    destruct (Scene.page_member (ToString (m_name r)));
      [discriminate | congruence | reflexivity].
  - intros args g. unfold Demo.gl_apply. repeat case_match; eauto.
Qed.

Lemma scene_method_returns (name : string) :
  Scene.page_member name = MFunction →
  method_returns N Scene.page_member Demo.gl_apply name.
Proof.
  intros Hm. split; [assumption |].
  intros args g. unfold Demo.gl_apply. repeat case_match; eauto.
Qed.

(** X1, at [bindVertexArray], which the demo context does not have. *)
Lemma unknown_operation_changes_nothing_witness :
  Demo.executeOneCommand Scene.m_unknown Demo.start
    = (Ret VUndefined, Demo.start).
Proof.
  exact (unknown_operation_changes_nothing Demo.gl_member Demo.gl_apply
           Scene.m_unknown [VPrim (PNum 0)] Demo.start eq_refl eq_refl).
Defined.

(** X2, at a frame-end signal that reaches a proxy which asked for no
    frame. *)
Lemma message_without_args_throws_witness :
  frameEndListener (proxy Demo.start) = None ∧
  Demo.onMessage Demo.m_frameEnd Demo.start = (Throw TypeError, Demo.start).
Proof.
  split; [reflexivity |].
  exact (message_without_args_throws Demo.gl_member Demo.gl_apply
           Demo.m_frameEnd Demo.start eq_refl eq_refl eq_refl eq_refl).
Defined.

(** X3, at the messages of the frame and the demo proxy while it
    collects. *)
Lemma buffering_defers_everything_witness :
  applied (Demo.dispatch Demo.window Demo.collecting)
    = applied Demo.collecting ∧
  posted (Demo.dispatch Demo.window Demo.collecting)
    = posted Demo.collecting.
Proof.
  destruct (buffering_defers_everything Demo.gl_member Demo.gl_apply
              Demo.window Demo.collecting ltac:(vm_compute; reflexivity))
    as (_ & _ & Ha & Hp).
  split; assumption.
Defined.

(** X4, at the demo proxy after its set-up. *)
Lemma frame_end_resolves_the_returned_promise_witness :
  let w1 := snd (getFrameCommands N 0 Scene.ready) in
  fst (getFrameCommands N 0 Scene.ready) = Ret (promises Scene.ready) ∧
  resolved (snd (Demo.onMessage Demo.m_frameEnd w1))
    = resolved Scene.ready ++ [promises Scene.ready].
Proof.
  destruct (frame_end_resolves_the_returned_promise Demo.gl_member
              Demo.gl_apply 0 Demo.m_frameEnd Scene.ready
              ltac:(vm_compute; reflexivity) eq_refl)
    as (H1 & _ & _ & _ & H5 & _).
  split; assumption.
Defined.

(** X8, at the buffer of request 0 and the frame of the demo. *)
Lemma registry_never_shrinks_witness :
  is_Some
    (uncloneables
       (proxy (Demo.run
                 (GetFrameCommands N 0 :: map (OnMessage N) Demo.window ++
                  [ExecuteFrameCommands N])
                 Scene.ready)) !! "0").
Proof.
  apply (registry_never_shrinks Demo.gl_member Demo.gl_apply).
  eexists. vm_compute. reflexivity.
Defined.

(** X10, at the demo proxy while it collects, after two more messages. *)
Lemma frame_end_is_consumed_ever_after_witness :
  let w' :=
    Demo.run [OnMessage N Demo.m_drawArrays; OnMessage N Demo.m_clear]
      Demo.collecting in
  ∃ l, frameEndListener (proxy w') = Some l ∧
       Demo.onMessage Demo.m_frameEnd w' = resolve N l w'.
Proof.
  apply (frame_end_is_consumed_ever_after Demo.gl_member Demo.gl_apply
           [OnMessage N Demo.m_drawArrays; OnMessage N Demo.m_clear]
           Demo.collecting Demo.m_frameEnd).
  - eexists. vm_compute. reflexivity.
  - vm_compute. reflexivity.
  - reflexivity.
Defined.



(** X13, at the remembered [bindBuffer] of the demo proxy, replayed after
    id 0 was reused for a program. *)
Lemma remembered_request_keeps_its_arguments_witness :
  let r :=
    with_args Demo.m_bindBuffer [VPrim (PNum 34962); VHost "WebGLBuffer" 0] in
  let w' := snd (Demo.onMessage Demo.m_createProgram_again Scene.ready) in
  uncloneables (proxy w') !! "0" = Some (HObj "WebGLProgram" 2) ∧
  map ap_args (applied (snd (Demo.executeOneCommand r w'))) =
    map ap_args (applied w') ++ [[VPrim (PNum 34962); VHost "WebGLBuffer" 0]].
Proof.
  cbv zeta. split; [vm_compute; reflexivity |].
  destruct (remembered_request_keeps_its_arguments Demo.gl_member
              Demo.gl_apply 0%N (PNum 1) Demo.setup
              (with_args Demo.m_bindBuffer
                 [VPrim (PNum 34962); VHost "WebGLBuffer" 0])
              (snd (Demo.onMessage Demo.m_createProgram_again Scene.ready))
              ltac:(vm_compute; right; left; reflexivity))
    as (a & Ha & _ & Happ).
  simpl in Ha. injection Ha as <-.
  rewrite Happ, map_app. reflexivity.
Defined.

(** X6, at the constant of the demo context. *)
Lemma constant_is_not_callable_witness :
  fst (Demo.executeOneCommand Scene.m_constant Demo.start) = Throw TypeError.
Proof.
  exact (proj1 (constant_is_not_callable Demo.gl_member Demo.gl_apply
                  Scene.m_constant [] Demo.start eq_refl
                  ltac:(vm_compute; reflexivity)
                  ltac:(vm_compute; reflexivity))).
Defined.



(** X16, at the reply to the second call. *)
Lemma reply_settles_its_call_once_witness :
  let s' := GlWorkerScript.settle 1 (VPrim (PNum 0)) Scene.waiting in
  GlWorkerScript.listener Scene.idle (fun _ => Scene.idle)
    Scene.reply Scene.waiting = (Ret tt, s') ∧
  GlWorkerScript.listener Scene.idle (fun _ => Scene.idle)
    Scene.reply s' = (Ret tt, s').
Proof.
  apply (reply_settles_its_call_once Scene.idle (fun _ => Scene.idle)
           Scene.reply 1 Scene.waiting).
  - vm_compute. reflexivity.
  - reflexivity.
  - reflexivity.
  - reflexivity.
Defined.

(** X17, at a reply to call 7 while calls 0 and 1 are awaited. *)
Lemma unexpected_reply_is_ignored_witness :
  GlWorkerScript.listener Scene.idle (fun _ => Scene.idle)
    Scene.stray Scene.waiting = (Ret tt, Scene.waiting).
Proof.
  apply (unexpected_reply_is_ignored Scene.idle (fun _ => Scene.idle)
           Scene.stray Scene.waiting).
  - intros n Hn.
    replace (GlWorker.pending (GlWorkerScript.vars Scene.waiting))
      with ({[0; 1]} : gset Z) in Hn by (vm_compute; reflexivity).
    apply elem_of_union in Hn as [Hn|Hn]; apply elem_of_singleton in Hn;
      subst n; vm_compute; discriminate.
  - reflexivity.
  - reflexivity.
Defined.

(** X20, at the properties of the page context and a worker that just
    loaded. *)
Lemma bootstrap_mirrors_the_context_witness :
  GlWorkerScript.gl Scene.booted !! "clear" = Some (GlWorkerScript.Stub "clear") ∧
  GlWorkerScript.gl Scene.booted !! "DEPTH_TEST"
    = Some (GlWorkerScript.Constant (VPrim (PNum 2929))) ∧
  GlWorkerScript.gl Scene.booted !! "canvas" = None.
Proof.
  destruct (bootstrap_mirrors_the_context Scene.idle (fun _ => Scene.idle)
              Scene.properties GlWorkerScript.init)
    as (s' & Hs & _ & _ & _ & Hgl).
  - apply (bool_decide_unpack _). vm_compute. exact I.
  - reflexivity.
  - assert (s' = Scene.booted) as ->.
    { unfold Scene.booted. rewrite Hs. reflexivity. }
    rewrite !Hgl. repeat split.
Defined.


(** X22, at the page after it asked for a frame and the messages of the
    demo frame. *)
Lemma nothing_is_applied_while_collecting_witness :
  page_log Scene.collected = page_log Scene.asked ∧
  page_gl Scene.collected = page_gl Scene.asked ∧
  page_posted Scene.collected = page_posted Scene.asked.
Proof.
  destruct (nothing_is_applied_while_collecting Scene.page_member
              Demo.gl_apply Demo.window Scene.asked)
    as (H1 & H2 & H3 & _).
  - apply (bool_decide_unpack _). vm_compute. exact I.
  - split; [exact H1 |]. split; [exact H2 | exact H3].
Defined.


(** The operations of that frame as the context sees them: the five calls
    of the page, the queue of the first proxy with its remembered state
    first, then the queue of the second proxy. *)
Example render_frame_names :
  map (fun v => match v with
                | ViewProxy i r => (Some i, Demo.name_of r)
                | ViewDirect name _ => (None, name)
                end)
    (reset_views Scene.gl_constant ++
     flush_views Scene.page_member 0 (proxies Scene.collected)) =
  [(None, "clearColor"); (None, "clearDepth"); (None, "enable");
   (None, "depthFunc"); (None, "clear");
   (Some 0%nat, "useProgram"); (Some 0%nat, "bindBuffer");
   (Some 0%nat, "drawArrays"); (Some 0%nat, "bindTexture");
   (Some 0%nat, "getError"); (Some 1%nat, "drawArrays")].
Proof. vm_compute. reflexivity. Qed.
